(** * The fundamental-solution integrator of the viscous wave notebook

    A shallow embedding of the numeric core of
    [Simulation/Fluid_Wave/Fundamental Solution Integration copy.ipynb]:
    the integrand [f], its envelope [e], the estimators [Npts] and [k_0],
    the quadrature [simps_point] / [simps], the single-point driver [F] and
    the radius sweep [F_slice].

    Number model.  Python floats are read as real numbers ([R]): the
    development states what the formulas of the notebook compute, not how
    IEEE rounding perturbs them.  Operations that produce no real number are
    explicit failures of the [outcome] monad:
    - a division whose divisor is zero ([DivisionByZero]: Python numbers
      raise ZeroDivisionError, and when numpy carries an operand the same
      division gives inf or nan with a RuntimeWarning; in both cases no real
      number comes out);
    - [x ** 0.5] for negative [x] (Python answers with a complex number);
    - reading a module-level name that is not bound ([NameError]);
    - [np.linspace] with a negative sample count ([ValueError]);
    - a call with the wrong number of positional arguments ([TypeError]). *)

From Stdlib Require Import Reals Lra Lia ZArith List Psatz.
Import ListNotations.
Open Scope R_scope.

(** ** Outcomes of Python evaluation *)

Inductive failure : Type :=
| DivisionByZero
| NotReal
| NameError
| ValueError
| TypeError.

Inductive outcome (A : Type) : Type :=
| Ok (a : A)
| Raise (x : failure).

Arguments Ok {A} a.
Arguments Raise {A} x.

Definition bind {A B : Type} (m : outcome A) (k : A -> outcome B) : outcome B :=
  match m with
  | Ok a => k a
  | Raise x => Raise x
  end.

Notation "x <- m ;; k" := (bind m (fun x => k))
  (at level 61, m at next level, right associativity).

(** ** Numeric primitives *)

(** Python's true division [x / y]. *)
Definition div (x y : R) : outcome R :=
  if Req_dec_T y 0 then Raise DivisionByZero else Ok (x / y).

(** [x ** 0.5]. *)
Definition pow_half (x : R) : outcome R :=
  if Rle_dec 0 x then Ok (sqrt x) else Raise NotReal.

(** [np.sinc]: the normalised sinc, sin(pi x)/(pi x), with value 1 at 0. *)
Definition np_sinc (x : R) : R :=
  if Req_dec_T x 0 then 1 else sin (PI * x) / (PI * x).

(** [int(x)] on a float: truncation toward zero. *)
Definition py_int (x : R) : Z :=
  if Rle_dec 0 x then Int_part x else (- Int_part (- x))%Z.

(** [range(0, n)]. *)
Definition py_range (n : Z) : list nat := seq 0 (Z.to_nat n).

(** [tqdm(xs)]: a progress bar around an iterable, the items unchanged. *)
Definition tqdm {A : Type} (xs : list A) : list A := xs.

(** [np.linspace(start, stop, num)] with the default [endpoint=True]. *)
Definition linspace (start stop : R) (num : Z) : outcome (list R) :=
  if (num <? 0)%Z then Raise ValueError
  else if (num =? 1)%Z then Ok [start]
  else Ok (map (fun i => start + INR i * ((stop - start) / (IZR num - 1)))
               (seq 0 (Z.to_nat num))).

(** ** Integrand and envelope (first code cell) *)

(** [def f(k,r,t,w_0=w_0,c=c)]. *)
Definition f (k r t w_0 c : R) : outcome R :=
  if Rlt_dec t 0 then Ok 0
  else if Rle_dec k 0 then Ok 0
  else
    kc <- div (2 * w_0) c ;;
    if Rlt_dec k kc then
      a <- div (- c ^ 2 * k ^ 2 * t) (2 * w_0) ;;
      q <- div (k ^ 2 * c ^ 2) (4 * w_0 ^ 2) ;;
      s <- pow_half (1 - q) ;;
      div (8 * PI ^ 2 * c ^ 2 * k ^ 2 * exp a
             * np_sinc (k * c * t / PI * s) * sin (r * k))
          (r * k)
    else
      kc' <- div (2 * w_0) c ;;
      if Rlt_dec kc' k then
        q1 <- div (k ^ 2 * c ^ 2) (4 * w_0 ^ 2) ;;
        s1 <- pow_half (-1 + q1) ;;
        a1 <- div (c ^ 2 * k ^ 2 * t) (2 * w_0) ;;
        q2 <- div (k ^ 2 * c ^ 2) (4 * w_0 ^ 2) ;;
        s2 <- pow_half (-1 + q2) ;;
        a2 <- div (c ^ 2 * k ^ 2 * t) (2 * w_0) ;;
        q3 <- div (k ^ 2 * c ^ 2) (4 * w_0 ^ 2) ;;
        s3 <- pow_half (-1 + q3) ;;
        h <- div (8 * PI ^ 2 * c ^ 2 * k ^ 2
                    * (exp (k * c * t * s1 - a1) - exp (- k * c * t * s2 - a2)))
                 (2 * k * c * t * s3) ;;
        div (h * sin (r * k)) (r * k)
      else Ok 0.

(** The module-level constants [w_0] and [c] are read by [e] when it is
    called; they are the first two arguments of [e] once the section is
    closed. *)
Section ModuleConstants.

Variables w_0 c : R.

(** [def e(k,r,t)]. *)
Definition e (k r t : R) : outcome R :=
  if Rlt_dec t 0 then Ok 0
  else if Rle_dec k 0 then Ok 0
  else
    kc <- div (2 * w_0) c ;;
    if Rlt_dec k kc then
      a <- div (- c ^ 2 * k ^ 2 * t) (2 * w_0) ;;
      q <- div (k ^ 2 * c ^ 2) (4 * w_0 ^ 2) ;;
      s <- pow_half (1 - q) ;;
      div (8 * PI ^ 2 * c ^ 2 * exp a) (r * c * t * s)
    else
      kc' <- div (2 * w_0) c ;;
      if Rlt_dec kc' k then
        q1 <- div (k ^ 2 * c ^ 2) (4 * w_0 ^ 2) ;;
        s1 <- pow_half (-1 + q1) ;;
        a1 <- div (c ^ 2 * k ^ 2 * t) (2 * w_0) ;;
        q2 <- div (k ^ 2 * c ^ 2) (4 * w_0 ^ 2) ;;
        s2 <- pow_half (-1 + q2) ;;
        a2 <- div (c ^ 2 * k ^ 2 * t) (2 * w_0) ;;
        q3 <- div (k ^ 2 * c ^ 2) (4 * w_0 ^ 2) ;;
        s3 <- pow_half (-1 + q3) ;;
        h <- div (8 * PI ^ 2 * c ^ 2
                    * (exp (k * c * t * s1 - a1) - exp (- k * c * t * s2 - a2)))
                 (2 * c * t * s3) ;;
        div h r
      else Ok 0.

End ModuleConstants.

(** ** Quadrature (cell "Performing the integration") *)

(** An integrand together with its extra positional arguments:
    [g x params] is the Python call [g(x, *params)]. *)
Definition integrand : Type := R -> list R -> outcome R.

(** [f(k, *params)], with the defaults [w_0 = 1] and [c = 1] that the
    [def] captured. *)
Definition f_call : integrand :=
  fun k params =>
    match params with
    | [r; t] => f k r t 1 1
    | [r; t; w_0] => f k r t w_0 1
    | [r; t; w_0; c] => f k r t w_0 c
    | _ => Raise TypeError
    end.

(** [def simps_point(f,a,b,Dx=-1,params=())]. *)
Definition simps_point (g : integrand) (a b Dx : R) (params : list R)
  : outcome R :=
  let Dx := if Rlt_dec Dx 0 then Rabs (a - b) else Dx in
  match params with
  | [] =>
      ga <- g a [] ;;
      gm <- g ((a + b) / 2) [] ;;
      gb <- g b [] ;;
      Ok (Dx / 6 * (ga + 4 * gm + gb))
  | _ =>
      ga <- g a params ;;
      gm <- g ((a + b) / 2) params ;;
      gb <- g b params ;;
      Ok (Dx / 6 * (ga + 4 * gm + gb))
  end.

(** The body of the [for i in range(...)] loop of [simps], run over the
    indices [idx] with the accumulator [integral]. *)
Fixpoint simps_loop (g : integrand) (a Dx : R) (params : list R)
  (idx : list nat) (integral : R) : outcome R :=
  match idx with
  | [] => Ok integral
  | i :: rest =>
      v <- simps_point g a (a + INR i * Dx) Dx params ;;
      simps_loop g a Dx params rest (integral + v)
  end.

(** [def simps(f,a,b,Npts,progress = False,params = ())]. *)
Definition simps (g : integrand) (a b Npts : R) (progress : bool)
  (params : list R) : outcome R :=
  Dx <- div (Rabs (a - b)) Npts ;;
  if progress then
    simps_loop g a Dx params (tqdm (py_range (py_int Npts))) 0
  else
    simps_loop g a Dx params (py_range (py_int Npts)) 0.

(** ** Estimators and the single-point integral *)

(** [def Npts(r,t,delta,Np,w_0,c)]. *)
Definition Npts (r t delta Np w_0 c : R) : outcome R :=
  p <- div (w_0 * r * Np) (c * PI) ;;
  q <- div (16 * PI ^ 4 * c ^ 2) (delta ^ 2 * r ^ 2 * t ^ 2) ;;
  s <- pow_half (q * exp (-2 * w_0 * t) + 1) ;;
  Ok (p * s).

(** [def k_0(r,t,delta,w_0,c)]. *)
Definition k_0 (r t delta w_0 c : R) : outcome R :=
  p <- div (2 * w_0) c ;;
  q <- div (16 * PI ^ 4 * c ^ 2) (delta ^ 2 * r ^ 2 * t ^ 2) ;;
  s <- pow_half (q * exp (-2 * w_0 * t) + 1) ;;
  Ok (p * s).

(** [def F(r,t,delta,Np,w_0,c,progress = False)]. *)
Definition F (r t delta Np w_0 c : R) (progress : bool) : outcome R :=
  b <- k_0 r t delta w_0 c ;;
  n <- Npts r t delta Np w_0 c ;;
  simps f_call (1 / 10000) b n progress [r; t; w_0; c].

(** ** Radius sweep at a fixed time (cell "Plotting the Fundamental Solution") *)

(** The module-level names that [F_slice] reads without receiving them as
    arguments; [None] is a name that is not bound. *)
Record globals : Type := {
  t_min : option R;
  t_max : option R;
  Nt : option Z
}.

Definition read_global {A : Type} (x : option A) : outcome A :=
  match x with
  | Some v => Ok v
  | None => Raise NameError
  end.

(** The values interpolated into the diagnostic text of [print]. *)
Inductive pyval : Type :=
| VInt (z : Z)
| VFloat (x : R).

(** What a call leaves behind: the values printed and the returned value
    (or the failure that ended the call). *)
Record run (A : Type) : Type := {
  stdout : list pyval;
  result : outcome A
}.

Arguments stdout {A} _.
Arguments result {A} _.

(** The [for r in R: grid.append(F(r,t,delta,Np,w_0,c))] loop. *)
Fixpoint F_slice_loop (t delta Np w_0 c : R) (Rs : list R) (grid : list R)
  : outcome (list R) :=
  match Rs with
  | [] => Ok grid
  | r :: rest =>
      v <- F r t delta Np w_0 c false ;;
      F_slice_loop t delta Np w_0 c rest (grid ++ [v])
  end.

(** The arguments of the [print] call of [F_slice], evaluated left to
    right. *)
Definition F_slice_report (G : globals) (r_min r_max : R) (Nr : Z)
  (t delta Np w_0 c : R) : outcome (list pyval) :=
  nt <- read_global (Nt G) ;;
  dr <- div (r_max - r_min) (IZR Nr) ;;
  kc <- div (2 * w_0) c ;;
  k0_m <- k_0 r_min t delta w_0 c ;;
  k0_M <- k_0 r_max t delta w_0 c ;;
  Npts_m <- Npts r_min t delta Np w_0 c ;;
  Npts_M <- Npts r_max t delta Np w_0 c ;;
  Ok [VInt Nr; VInt nt; VFloat t; VFloat r_min; VFloat r_max; VFloat dr;
      VFloat c; VFloat w_0; VFloat kc; VFloat delta; VFloat k0_m;
      VFloat k0_M; VFloat Np; VInt (py_int Npts_m); VInt (py_int Npts_M)].

(** [def F_slice(r_min,r_max,Nr,t,delta,Np,w_0,c,progress = True)]. *)
Definition F_slice (G : globals) (r_min r_max : R) (Nr : Z)
  (t delta Np w_0 c : R) (progress : bool) : run (list R) :=
  match F_slice_report G r_min r_max Nr t delta Np w_0 c with
  | Raise x => {| stdout := []; result := Raise x |}
  | Ok printed =>
      {| stdout := printed;
         result :=
           Rs <- linspace r_min r_max Nr ;;
           lo <- read_global (t_min G) ;;
           hi <- read_global (t_max G) ;;
           nt <- read_global (Nt G) ;;
           Ts <- linspace lo hi nt ;;
           if progress then
             F_slice_loop t delta Np w_0 c (tqdm Rs) []
           else
             F_slice_loop t delta Np w_0 c Rs [] |}
  end.

(** ** The quadrature rule as the specification words it *)

(** Sum over i = 0..N-1 of dx/6 * (g(x_i) + 4 g(x_i + dx/2) + g(x_i + dx))
    with x_i = a + i dx and dx = (b - a)/N: Simpson's one-third rule on each
    of the N subintervals of [a, b]. *)
Definition spec_simpson_term (g : R -> R) (a dx : R) (i : nat) : R :=
  let x_i := a + INR i * dx in
  dx / 6 * (g x_i + 4 * g (x_i + dx / 2) + g (x_i + dx)).

Definition spec_simpson_sum (g : R -> R) (a b : R) (N : nat) : R :=
  let dx := (b - a) / INR N in
  fold_right Rplus 0 (map (spec_simpson_term g a dx) (seq 0 N)).

(** A total scalar function as an integrand without extra arguments. *)
Definition total (g : R -> R) : integrand := fun x _ => Ok (g x).

(** ** The estimators and the integrand as the specification words them *)

(** The estimator formulas as the specification writes them. *)
Definition spec_N (r t delta Np w_0 c : R) : R :=
  (w_0 * r * Np) / (c * PI)
  * sqrt ((16 * PI ^ 4 * c ^ 2) / (delta ^ 2 * r ^ 2 * t ^ 2) + 1).

Definition spec_k0 (r t delta w_0 c : R) : R :=
  (2 * w_0 / c)
  * sqrt ((16 * PI ^ 4 * c ^ 2) / (delta ^ 2 * r ^ 2 * t ^ 2)
          * exp (- 2 * w_0 * t) + 1).

(** The value the specification gives the integrand at r = 0 below the
    critical wavenumber: the spatial factor read as 1. *)
Definition spec_f_at_origin (k t w_0 c : R) : R :=
  8 * PI ^ 2 * c ^ 2 * k ^ 2 * exp (- c ^ 2 * k ^ 2 * t / (2 * w_0))
  * np_sinc (k * c * t * sqrt (1 - k ^ 2 * c ^ 2 / (4 * w_0 ^ 2)) / PI)
  * 1.

(** ** Observations on the quadrature loop *)

(** The number of passes through the loop of [simps] for the estimate N. *)
Definition subinterval_count (N : R) : nat := length (py_range (py_int N)).

(** Rounding up, as the specification asks for the count. *)
Definition spec_ceiling (x : R) : Z := (- Int_part (- x))%Z.

(** What the loop of [simps] adds for the index i: the three sample points
    are a, the midpoint of a and a + i Dx, and a + i Dx. *)
Definition simps_term (g : R -> R) (a Dx : R) (i : nat) : R :=
  Dx / 6 * (g a + 4 * g ((a + (a + INR i * Dx)) / 2) + g (a + INR i * Dx)).

(** ** The plotting helpers of the integration notebook *)

(** A list comprehension [[g(x) for x in xs]]: left to right, stopping at the
    first failure. *)
Fixpoint comprehension {A B : Type} (g : A -> outcome B) (xs : list A)
  : outcome (list B) :=
  match xs with
  | [] => Ok []
  | x :: rest =>
      v <- g x ;;
      vs <- comprehension g rest ;;
      Ok (v :: vs)
  end.

(** [def f_vect(K,r,t)]: [f] is called with the defaults w_0 = 1 and c = 1
    that its [def] captured. *)
Definition f_vect (K : list R) (r t : R) : outcome (list R) :=
  comprehension (fun k => f k r t 1 1) K.

Section PlotConstants.

Variables w_0 c : R.

(** [def e_vect(K,r,t)]. *)
Definition e_vect (K : list R) (r t : R) : outcome (list R) :=
  comprehension (fun k => e w_0 c k r t) K.


End PlotConstants.

(** ** Code that indexes lists *)

(** The failures of [failure], and Python's IndexError. *)
Inductive failure_ix : Type :=
| Plain (x : failure)
| IndexError.

Inductive outcome_ix (A : Type) : Type :=
| OkIx (a : A)
| RaiseIx (x : failure_ix).

Arguments OkIx {A} a.
Arguments RaiseIx {A} x.

Definition lift {A : Type} (m : outcome A) : outcome_ix A :=
  match m with
  | Ok a => OkIx a
  | Raise x => RaiseIx (Plain x)
  end.

Definition bind_ix {A B : Type} (m : outcome_ix A) (k : A -> outcome_ix B)
  : outcome_ix B :=
  match m with
  | OkIx a => k a
  | RaiseIx x => RaiseIx x
  end.

Notation "x <-- m ;; k" := (bind_ix m (fun x => k))
  (at level 61, m at next level, right associativity).

Definition matrix : Type := list (list R).

(** ** The time-radius sweep [F_range] and its mesh *)

(** The [for r in R: grid[-1].append(F(r,t,delta,Np,w_0,c))] loop of
    [F_range]. *)
Fixpoint F_range_inner (t delta Np w_0 c : R) (Rs : list R) (grid : matrix)
  : outcome_ix matrix :=
  match Rs with
  | [] => OkIx grid
  | r :: rest =>
      match rev grid with
      | [] => RaiseIx IndexError
      | row :: front =>
          v <-- lift (F r t delta Np w_0 c false) ;;
          F_range_inner t delta Np w_0 c rest (rev front ++ [row ++ [v]])
      end
  end.

(** The [for t in T: grid.append([]); ...] loop of [F_range]. *)
Fixpoint F_range_outer (delta Np w_0 c : R) (Ts Rs : list R) (grid : matrix)
  : outcome_ix matrix :=
  match Ts with
  | [] => OkIx grid
  | t :: rest =>
      grid' <-- F_range_inner t delta Np w_0 c Rs (grid ++ [[]]) ;;
      F_range_outer delta Np w_0 c rest Rs grid'
  end.

(** The arguments of the [print] call of [F_range]. *)
Definition F_range_report (r_min r_max : R) (Nr : Z) (t_min t_max : R)
  (Nt : Z) (delta Np w_0 c : R) : outcome (list pyval) :=
  dt <- div (t_max - t_min) (IZR Nt) ;;
  dr <- div (r_max - r_min) (IZR Nr) ;;
  kc <- div (2 * w_0) c ;;
  k0_m <- k_0 r_min t_min delta w_0 c ;;
  k0_M <- k_0 r_max t_min delta w_0 c ;;
  Npts_m <- Npts r_min t_max delta Np w_0 c ;;
  Npts_M <- Npts r_max t_min delta Np w_0 c ;;
  Ok [VInt Nr; VInt Nt; VFloat t_min; VFloat t_max; VFloat dt; VFloat r_min;
      VFloat r_max; VFloat dr; VFloat c; VFloat w_0; VFloat kc; VFloat delta;
      VFloat k0_m; VFloat k0_M; VFloat Np; VInt (py_int Npts_m);
      VInt (py_int Npts_M)].

(** [def F_range(r_min,r_max,Nr,t_min,t_max,Nt,delta,Np,w_0,c,progress =
    True)]: the values printed and the grid returned. *)
Definition F_range (r_min r_max : R) (Nr : Z) (t_min t_max : R) (Nt : Z)
  (delta Np w_0 c : R) (progress : bool) : list pyval * outcome_ix matrix :=
  match F_range_report r_min r_max Nr t_min t_max Nt delta Np w_0 c with
  | Raise x => ([], RaiseIx (Plain x))
  | Ok printed =>
      (printed,
       Rs <-- lift (linspace r_min r_max Nr) ;;
       Ts <-- lift (linspace t_min t_max Nt) ;;
       if progress then
         F_range_outer delta Np w_0 c (tqdm Ts) Rs []
       else
         F_range_outer delta Np w_0 c Ts Rs [])
  end.

(** [np.meshgrid(xs, ys)] with the default [indexing='xy']: two arrays of
    [len(ys)] rows and [len(xs)] columns. *)
Definition meshgrid (xs ys : list R) : matrix * matrix :=
  (map (fun _ => xs) ys, map (fun y => map (fun _ => y) xs) ys).

(** [def get_meshgrid(r_min,r_max,Nr,t_min,t_max,Nt)]. *)
Definition get_meshgrid (r_min r_max : R) (Nr : Z) (t_min t_max : R) (Nt : Z)
  : outcome (matrix * matrix) :=
  Rs <- linspace r_min r_max Nr ;;
  Ts <- linspace t_min t_max Nt ;;
  Ok (meshgrid Rs Ts).

(** The entry [m[j][i]] of a nested list, when both indices are in range. *)
Definition entry (m : matrix) (j i : nat) : option R :=
  match nth_error m j with
  | Some row => nth_error row i
  | None => None
  end.

(** The entries of a returned sweep, radius by radius. *)
Definition slice_of (t delta Np w_0 c : R) (Rs row : list R) : Prop :=
  Forall2 (fun r v => F r t delta Np w_0 c false = Ok v) Rs row.

(** ** The heat distribution notebook ([Convolution.ipynb]) *)

(** The first argument of [G]: a number or a one-dimensional array. *)
Inductive point : Type :=
| Scalar (x : R)
| Vector (xs : list R).

(** [np.dot(x, x)]. *)
Definition np_dot_self (x : point) : R :=
  match x with
  | Scalar x => x * x
  | Vector xs => fold_right Rplus 0 (map (fun v => v * v) xs)
  end.

(** [def G(x,t,s_x=s_x,s_t=s_t)]. *)
Definition G (x : point) (t s_x s_t : R) : outcome R :=
  n <- div 1 (4 * PI ^ 2 * s_x ^ 3 * s_t) ;;
  a <- div (- np_dot_self x) (2 * s_x ^ 2) ;;
  b <- div (- t ^ 2) (2 * s_t ^ 2) ;;
  Ok (n * exp a * exp b).

(** A function of position and time with its extra positional arguments:
    [g x t params] is the call [g(x, t, *params)]. *)
Definition mesh_function : Type := R -> R -> list R -> outcome R.

(** [G(x, t, *params)], with the defaults s_x = 1 and s_t = 1. *)
Definition G_call : mesh_function :=
  fun x t params =>
    match params with
    | [] => G (Scalar x) t 1 1
    | [s_x] => G (Scalar x) t s_x 1
    | [s_x; s_t] => G (Scalar x) t s_x s_t
    | _ => Raise TypeError
    end.

(** [np.zeros((rows, cols))]. *)
Definition np_zeros (rows cols : nat) : matrix := repeat (repeat 0 cols) rows.

Fixpoint set_nth {A : Type} (l : list A) (n : nat) (v : A) : list A :=
  match l, n with
  | [], _ => []
  | _ :: rest, O => v :: rest
  | h :: rest, S n' => h :: set_nth rest n' v
  end.

(** The assignment [z[j][i] = v] for indices counted from 0: IndexError when
    [j] is not a row or [i] not a column of it. *)
Definition set_item (z : matrix) (j i : nat) (v : R) : outcome_ix matrix :=
  match nth_error z j with
  | None => RaiseIx IndexError
  | Some row =>
      if (i <? length row)%nat then OkIx (set_nth z j (set_nth row i v))
      else RaiseIx IndexError
  end.

(** A nested list with [rows] rows of [cols] entries each. *)
Definition has_shape (z : matrix) (rows cols : nat) : Prop :=
  length z = rows /\ Forall (fun row => length row = cols) z.

(** The loop [for j in range(0,len(T)): z[j][i] = f(X[i],T[j],*params)],
    from index [j] on, for the column [i] and its abscissa [xi]. *)
Fixpoint mesh_inner (g : mesh_function) (params : list R) (xi : R) (i : nat)
  (Ts : list R) (j : nat) (z : matrix) : outcome_ix matrix :=
  match Ts with
  | [] => OkIx z
  | tj :: rest =>
      v <-- lift (g xi tj params) ;;
      z' <-- set_item z j i v ;;
      mesh_inner g params xi i rest (S j) z'
  end.

(** The loop [for i in range(0,len(X))], from index [i] on. *)
Fixpoint mesh_outer (g : mesh_function) (params : list R) (Xs : list R)
  (i : nat) (T : list R) (z : matrix) : outcome_ix matrix :=
  match Xs with
  | [] => OkIx z
  | xi :: rest =>
      z' <-- mesh_inner g params xi i T 0 z ;;
      mesh_outer g params rest (S i) T z'
  end.

(** [def mesh_wrapper(X,T,f,params=())]. *)
Definition mesh_wrapper (X T : list R) (g : mesh_function) (params : list R)
  : outcome_ix matrix :=
  let z := np_zeros (length X) (length T) in
  match params with
  | [] => mesh_outer g [] X 0 T z
  | _ => mesh_outer g params X 0 T z
  end.

(** ** The point-source notebook *)

(** [def p(r, t, E_0, beta, C_p, c, w_0, sigma)]. *)
Definition p (r t E_0 beta C_p c w_0 sigma : R) : outcome R :=
  let r := if Rlt_dec r 0 then - r else r in
  if Req_dec_T r 0 then Ok 0
  else
    root <- pow_half (2 * PI * c ^ 2) ;;
    q <- div r (w_0 * c) ;;
    a <- div (- beta * E_0 * (c * t - r))
             (4 * PI * C_p * root * (sigma ^ 2 + q)) ;;
    rc <- div (r * c) w_0 ;;
    b <- div (- (c * t - r) ^ 2) (2 * c ^ 2 * sigma ^ 2 + rc) ;;
    Ok (a * exp b).

(** [scipy.constants.k], the Boltzmann constant, is the first argument of
    [signal_noise] once the section is closed. *)
Section PhysicalConstants.

Variable const_k : R.

(** [def signal_noise(r,beta,c,E_0,C_p,rho,T,sigma,w_0)]. *)
Definition signal_noise (r beta c E_0 C_p rho T sigma w_0 : R) : outcome R :=
  if Req_dec_T r 0 then Ok 0
  else
    let r := if Rlt_dec r 0 then - r else r in
    q <- div r (w_0 * c) ;;
    s <- pow_half (sigma ^ 2 + q) ;;
    div (beta ^ 2 * c * E_0 ^ 2)
        (16 * Rpower PI (3 / 2) * C_p ^ 2 * rho * const_k * T * r ^ 2 * s).

End PhysicalConstants.

(** ** The closed-form notebook ([Fundamental Solution-checkpoint.ipynb]) *)

Module Checkpoint.

(** [def phi(k,r,t,w_0=w_0,c=c)]. *)
Definition phi (k r t w_0 c : R) : outcome R :=
  if Rlt_dec t 0 then Ok 0
  else if Rle_dec k 0 then Ok 0
  else
    kc <- div (2 * w_0) c ;;
    if Rlt_dec k kc then
      a <- div (- c ^ 2 * k ^ 2 * t) (2 * w_0) ;;
      div (8 * PI ^ 2 * c * exp a * sin (k * c * t) * sin (r * k)) (r * t)
    else
      kc' <- div (2 * w_0) c ;;
      if Rlt_dec kc' k then
        q1 <- div (k ^ 2 * c ^ 2) (4 * w_0 ^ 2) ;;
        s1 <- pow_half (-1 + q1) ;;
        a1 <- div (c ^ 2 * k ^ 2 * t) (2 * w_0) ;;
        q2 <- div (k ^ 2 * c ^ 2) (4 * w_0 ^ 2) ;;
        s2 <- pow_half (-1 + q2) ;;
        a2 <- div (c ^ 2 * k ^ 2 * t) (2 * w_0) ;;
        q3 <- div (k ^ 2 * c ^ 2) (4 * w_0 ^ 2) ;;
        s3 <- pow_half (-1 + q3) ;;
        h <- div (8 * PI ^ 2 * c ^ 2 * k ^ 2
                    * (exp (k * c * t * s1 - a1) - exp (- k * c * t * s2 - a2)))
                 (2 * k * c * t * s3) ;;
        div (h * sin (r * k)) (r * k)
      else Ok 0.

(** [def F(r,t,w_0=w_0,c=c)], the closed form (its test of [t < 0] is
    commented out in the source). *)
Definition F (r t w_0 c : R) : outcome R :=
  q <- div (PI * w_0) (c ^ 2 * t) ;;
  s <- pow_half q ;;
  a1 <- div (- r ^ 2 * w_0) (c ^ 2 * t) ;;
  b1 <- div ((r + c * t) ^ 2 * w_0) (2 * c ^ 2 * t) ;;
  a2 <- div (- r ^ 2 * w_0) (c ^ 2 * t) ;;
  b2 <- div ((r - c * t) ^ 2 * w_0) (2 * c ^ 2 * t) ;;
  Ok (s * (exp (a1 - t * w_0 + b1) - exp (a2 - t * w_0 + b2))).

End Checkpoint.

(** * Properties *)

(** ** The primitives *)

Lemma div_ok (x y : R) : y <> 0 -> div x y = Ok (x / y).
Proof.
  intros Hy. unfold div. destruct (Req_dec_T y 0) as [E | _].
  - contradiction.
  - reflexivity.
Qed.

Lemma div_by_zero (x y : R) : y = 0 -> div x y = Raise DivisionByZero.
Proof.
  intros Hy. unfold div. destruct (Req_dec_T y 0) as [_ | N].
  - reflexivity.
  - contradiction.
Qed.

Lemma pow_half_ok (x : R) : 0 <= x -> pow_half x = Ok (sqrt x).
Proof.
  intros Hx. unfold pow_half. destruct (Rle_dec 0 x) as [_ | N].
  - reflexivity.
  - contradiction.
Qed.

(** The spatial factor is written [np.sin(r*k)/(r*k)]; flipping the sign of
    [r] flips numerator and divisor together. *)
Lemma spatial_factor_even (X r k : R) :
  div (X * sin (- r * k)) (- r * k) = div (X * sin (r * k)) (r * k).
Proof.
  replace (- r * k) with (- (r * k)) by ring.
  rewrite sin_neg. unfold div.
  destruct (Req_dec_T (- (r * k)) 0) as [E1 | N1];
    destruct (Req_dec_T (r * k) 0) as [E2 | N2]; try reflexivity; try lra.
  f_equal. field. split; intros E; apply N2; rewrite E; ring.
Qed.

(** Takes the next test or bound computation of both sides apart. *)
Ltac run_step :=
  match goal with
  | |- context [if ?d then _ else _] => destruct d
  | |- context [bind ?m _] =>
      lazymatch m with
      | Ok _ => cbn [bind]
      | Raise _ => cbn [bind]
      | _ => destruct m; cbn [bind]
      end
  end.

(** C8: the integrand is even in the radius: for every k, r, t and all
    constants w_0 > 0 and c > 0, f(k, -r, t, w_0, c) = f(k, r, t, w_0, c). *)
Theorem f_even_in_radius (k r t w_0 c : R) :
  0 < w_0 -> 0 < c -> f k (- r) t w_0 c = f k r t w_0 c.
Proof.
  intros _ _. unfold f.
  repeat first [ rewrite spatial_factor_even | reflexivity | run_step ].
Qed.

Lemma f_even_in_radius_witness : f 3 (- 2) 1 1 1 = f 3 2 1 1 1.
Proof. apply (f_even_in_radius 3 2 1 1 1); lra. Defined.

(** C9: causality: for every t < 0, every r, every k and all constants
    w_0 > 0 and c > 0, f(k, r, t, w_0, c) = 0. *)
Theorem f_causal (k r t w_0 c : R) :
  t < 0 -> 0 < w_0 -> 0 < c -> f k r t w_0 c = Ok 0.
Proof.
  intros Ht _ _. unfold f. destruct (Rlt_dec t 0) as [_ | N].
  - reflexivity.
  - contradiction.
Qed.

Lemma f_causal_witness : f 5 2 (- 1) 1 1 = Ok 0.
Proof. apply (f_causal 5 2 (- 1) 1 1); lra. Defined.

(** ** The estimators *)

Lemma PI_neq_0 : PI <> 0.
Proof. pose proof PI_RGT_0. lra. Qed.

Lemma exp_neg_lt_1 (x : R) : x < 0 -> exp x < 1.
Proof.
  intros Hx. apply Rlt_le_trans with (r2 := exp 0).
  - apply exp_increasing. exact Hx.
  - rewrite exp_0. lra.
Qed.

Lemma sq_pos (x : R) : x <> 0 -> 0 < x ^ 2.
Proof.
  intros Hx. destruct (Rtotal_order x 0) as [H | [H | H]]; [ | contradiction | ];
    simpl; nra.
Qed.

Lemma estimator_divisor_pos (r t delta : R) :
  delta <> 0 -> r <> 0 -> t <> 0 -> 0 < delta ^ 2 * r ^ 2 * t ^ 2.
Proof.
  intros Hd Hr Ht.
  assert (0 < delta ^ 2) by (apply sq_pos; exact Hd).
  assert (0 < r ^ 2) by (apply sq_pos; exact Hr).
  assert (0 < t ^ 2) by (apply sq_pos; exact Ht).
  apply Rmult_lt_0_compat; [apply Rmult_lt_0_compat | ]; assumption.
Qed.

Lemma estimator_divisor_zero (r t delta : R) :
  r = 0 \/ t = 0 -> delta ^ 2 * r ^ 2 * t ^ 2 = 0.
Proof. intros [-> | ->]; ring. Qed.

Lemma estimator_quotient_nonneg (r t delta c : R) :
  delta <> 0 -> r <> 0 -> t <> 0 ->
  0 <= 16 * PI ^ 4 * c ^ 2 / (delta ^ 2 * r ^ 2 * t ^ 2).
Proof.
  intros Hd Hr Ht.
  pose proof (estimator_divisor_pos r t delta Hd Hr Ht) as Hden.
  apply Rmult_le_pos.
  - apply Rmult_le_pos.
    + apply Rmult_le_pos; [lra | apply pow_le; pose proof PI_RGT_0; lra].
    + apply pow2_ge_0.
  - left. apply Rinv_0_lt_compat. exact Hden.
Qed.

Lemma estimator_radicand_pos (r t delta w_0 c : R) :
  delta <> 0 -> r <> 0 -> t <> 0 ->
  1 <= 16 * PI ^ 4 * c ^ 2 / (delta ^ 2 * r ^ 2 * t ^ 2)
         * exp (- 2 * w_0 * t) + 1.
Proof.
  intros Hd Hr Ht.
  pose proof (estimator_quotient_nonneg r t delta c Hd Hr Ht) as Hq.
  pose proof (exp_pos (- 2 * w_0 * t)) as He.
  assert (0 <= 16 * PI ^ 4 * c ^ 2 / (delta ^ 2 * r ^ 2 * t ^ 2)
               * exp (- 2 * w_0 * t)) by (apply Rmult_le_pos; lra).
  lra.
Qed.

(** What [Npts] returns away from the zeros of its divisors. *)
Lemma Npts_value (r t delta Np w_0 c : R) :
  c <> 0 -> delta <> 0 -> r <> 0 -> t <> 0 ->
  Npts r t delta Np w_0 c =
  Ok (w_0 * r * Np / (c * PI)
      * sqrt (16 * PI ^ 4 * c ^ 2 / (delta ^ 2 * r ^ 2 * t ^ 2)
              * exp (- 2 * w_0 * t) + 1)).
Proof.
  intros Hc Hd Hr Ht. unfold Npts.
  rewrite div_ok by (apply Rmult_integral_contrapositive_currified;
                     [exact Hc | exact PI_neq_0]).
  cbn [bind].
  rewrite div_ok
    by (pose proof (estimator_divisor_pos r t delta Hd Hr Ht); lra).
  cbn [bind].
  rewrite pow_half_ok
    by (pose proof (estimator_radicand_pos r t delta w_0 c Hd Hr Ht); lra).
  reflexivity.
Qed.

(** What [k_0] returns away from the zeros of its divisors. *)
Lemma k_0_value (r t delta w_0 c : R) :
  c <> 0 -> delta <> 0 -> r <> 0 -> t <> 0 ->
  k_0 r t delta w_0 c =
  Ok (2 * w_0 / c
      * sqrt (16 * PI ^ 4 * c ^ 2 / (delta ^ 2 * r ^ 2 * t ^ 2)
              * exp (- 2 * w_0 * t) + 1)).
Proof.
  intros Hc Hd Hr Ht. unfold k_0.
  rewrite div_ok by exact Hc.
  cbn [bind].
  rewrite div_ok
    by (pose proof (estimator_divisor_pos r t delta Hd Hr Ht); lra).
  cbn [bind].
  rewrite pow_half_ok
    by (pose proof (estimator_radicand_pos r t delta w_0 c Hd Hr Ht); lra).
  reflexivity.
Qed.

(** The subinterval estimate is the cutoff times r N_p / (2 pi): both share
    one root, with the factor exp(-2 w_0 t) under it. *)
Lemma Npts_from_k_0 (r t delta Np w_0 c : R) :
  c <> 0 -> delta <> 0 -> r <> 0 -> t <> 0 ->
  exists n b,
    Npts r t delta Np w_0 c = Ok n /\ k_0 r t delta w_0 c = Ok b
    /\ n = b * r * Np / (2 * PI).
Proof.
  intros Hc Hd Hr Ht. eexists. eexists.
  split; [apply Npts_value; assumption | ].
  split; [apply k_0_value; assumption | ].
  field. split; [exact Hc | exact PI_neq_0].
Qed.

(** Both estimators stop at the unguarded division by delta^2 r^2 t^2. *)
Lemma Npts_degenerate (r t delta Np w_0 c : R) :
  c <> 0 -> r = 0 \/ t = 0 ->
  Npts r t delta Np w_0 c = Raise DivisionByZero.
Proof.
  intros Hc Hz. unfold Npts.
  rewrite div_ok by (apply Rmult_integral_contrapositive_currified;
                     [exact Hc | exact PI_neq_0]).
  cbn [bind].
  rewrite div_by_zero by (apply estimator_divisor_zero; exact Hz).
  reflexivity.
Qed.

Lemma k_0_degenerate (r t delta w_0 c : R) :
  c <> 0 -> r = 0 \/ t = 0 ->
  k_0 r t delta w_0 c = Raise DivisionByZero.
Proof.
  intros Hc Hz. unfold k_0.
  rewrite div_ok by exact Hc.
  cbn [bind].
  rewrite div_by_zero by (apply estimator_divisor_zero; exact Hz).
  reflexivity.
Qed.

Lemma F_degenerate (r t delta Np w_0 c : R) (progress : bool) :
  c <> 0 -> r = 0 \/ t = 0 ->
  F r t delta Np w_0 c progress = Raise DivisionByZero.
Proof.
  intros Hc Hz. unfold F.
  rewrite k_0_degenerate by assumption.
  reflexivity.
Qed.

(** The code keeps the factor exp(-2 w_0 t) under the root of [Npts], so for
    t > 0 it stays strictly below the formula without that factor. *)
Lemma Npts_below_spec_N (r t delta Np w_0 c : R) :
  0 < r -> 0 < t -> 0 < delta -> 0 < Np -> 0 < w_0 -> 0 < c ->
  exists n, Npts r t delta Np w_0 c = Ok n /\ n < spec_N r t delta Np w_0 c.
Proof.
  intros Hr Ht Hd HNp Hw Hc.
  eexists. split.
  - apply Npts_value; lra.
  - unfold spec_N.
    assert (Hq : 0 < 16 * PI ^ 4 * c ^ 2 / (delta ^ 2 * r ^ 2 * t ^ 2)).
    { apply Rdiv_lt_0_compat.
      - apply Rmult_lt_0_compat;
          [apply Rmult_lt_0_compat; [lra | apply pow_lt; exact PI_RGT_0]
          | apply pow_lt; lra].
      - apply estimator_divisor_pos; lra. }
    assert (He : exp (- 2 * w_0 * t) < 1).
    { apply exp_neg_lt_1.
      assert (0 < w_0 * t) by (apply Rmult_lt_0_compat; lra). lra. }
    pose proof (exp_pos (- 2 * w_0 * t)) as Hp.
    apply Rmult_lt_compat_l.
    + apply Rdiv_lt_0_compat.
      * apply Rmult_lt_0_compat; [apply Rmult_lt_0_compat | ]; lra.
      * apply Rmult_lt_0_compat; [lra | exact PI_RGT_0].
    + apply sqrt_lt_1.
      * assert (0 <= 16 * PI ^ 4 * c ^ 2 / (delta ^ 2 * r ^ 2 * t ^ 2)
                     * exp (- 2 * w_0 * t)) by (apply Rmult_le_pos; lra).
        lra.
      * lra.
      * apply Rplus_lt_compat_r.
        rewrite <- (Rmult_1_r (16 * PI ^ 4 * c ^ 2
                               / (delta ^ 2 * r ^ 2 * t ^ 2))) at 2.
        apply Rmult_lt_compat_l; assumption.
Qed.

(** C2, refuted as stated: at r = t = N_p = w_0 = c = 1 and delta = 1/2 the
    value of [Npts] is not (w_0 r N_p)/(c pi) sqrt(16 pi^4 c^2/(delta^2 r^2
    t^2) + 1). *)
Lemma Npts_not_spec_N :
  Npts 1 1 (1 / 2) 1 1 1 <> Ok (spec_N 1 1 (1 / 2) 1 1 1).
Proof.
  destruct (Npts_below_spec_N 1 1 (1 / 2) 1 1 1) as [n [Hn Hlt]]; try lra.
  rewrite Hn. intros E. injection E as E. lra.
Qed.

(** C2, amended: for r > 0, t > 0, 0 < delta < 1, N_p > 0, w_0 > 0 and
    c > 0 the subinterval estimate is
    (w_0 r N_p)/(c pi) sqrt(16 pi^4 c^2/(delta^2 r^2 t^2) exp(-2 w_0 t) + 1),
    the same root as in the cutoff k_0. *)
Theorem Npts_formula (r t delta Np w_0 c : R) :
  0 < r -> 0 < t -> 0 < delta < 1 -> 0 < Np -> 0 < w_0 -> 0 < c ->
  Npts r t delta Np w_0 c =
  Ok ((w_0 * r * Np) / (c * PI)
      * sqrt ((16 * PI ^ 4 * c ^ 2) / (delta ^ 2 * r ^ 2 * t ^ 2)
              * exp (- 2 * w_0 * t) + 1)).
Proof.
  intros Hr Ht Hd HNp Hw Hc. apply Npts_value; lra.
Qed.

Lemma Npts_formula_witness :
  Npts 1 1 (1 / 2) 100 1 1 =
  Ok ((1 * 1 * 100) / (1 * PI)
      * sqrt ((16 * PI ^ 4 * 1 ^ 2) / ((1 / 2) ^ 2 * 1 ^ 2 * 1 ^ 2)
              * exp (- 2 * 1 * 1) + 1)).
Proof. apply (Npts_formula 1 1 (1 / 2) 100 1 1); lra. Defined.

(** C4: for r <> 0, t <> 0, delta > 0, w_0 > 0 and c > 0 the cutoff is
    k0 = (2 w_0/c) sqrt(16 pi^4 c^2/(delta^2 r^2 t^2) exp(-2 w_0 t) + 1). *)
Theorem k_0_formula (r t delta w_0 c : R) :
  r <> 0 -> t <> 0 -> 0 < delta -> 0 < w_0 -> 0 < c ->
  k_0 r t delta w_0 c = Ok (spec_k0 r t delta w_0 c).
Proof.
  intros Hr Ht Hd Hw Hc. unfold spec_k0. apply k_0_value; lra.
Qed.

Lemma k_0_formula_witness :
  k_0 1 1 (1 / 1000) 1 1 = Ok (spec_k0 1 1 (1 / 1000) 1 1).
Proof. apply (k_0_formula 1 1 (1 / 1000) 1 1); lra. Defined.

(** C3, refuted as stated: at r = 0 (and likewise at t = 0) the estimators
    and [F] end in a division by zero instead of returning a value. *)
Lemma estimators_raise_at_zero :
  Npts 0 1 (1 / 2) 1 1 1 = Raise DivisionByZero
  /\ k_0 0 1 (1 / 2) 1 1 = Raise DivisionByZero
  /\ F 0 1 (1 / 2) 1 1 1 false = Raise DivisionByZero
  /\ Npts 1 0 (1 / 2) 1 1 1 = Raise DivisionByZero
  /\ k_0 1 0 (1 / 2) 1 1 = Raise DivisionByZero
  /\ F 1 0 (1 / 2) 1 1 1 false = Raise DivisionByZero.
Proof.
  repeat split;
    first [ apply Npts_degenerate | apply k_0_degenerate | apply F_degenerate ];
    first [ lra | left; reflexivity | right; reflexivity ].
Qed.

(** C3, amended: with delta > 0, N_p > 0, w_0 > 0 and c > 0, the estimators
    [Npts] and [k_0] return a real number when r <> 0 and t <> 0; when r = 0
    or t = 0 they, and [F] with them, stop at the division by
    delta^2 r^2 t^2 = 0, which no guard precedes. *)
Theorem estimators_defined_away_from_zero (r t delta Np w_0 c : R) :
  0 < delta -> 0 < Np -> 0 < w_0 -> 0 < c ->
  (r <> 0 -> t <> 0 ->
   exists n k, Npts r t delta Np w_0 c = Ok n /\ k_0 r t delta w_0 c = Ok k)
  /\ (r = 0 \/ t = 0 ->
      Npts r t delta Np w_0 c = Raise DivisionByZero
      /\ k_0 r t delta w_0 c = Raise DivisionByZero
      /\ forall progress,
           F r t delta Np w_0 c progress = Raise DivisionByZero).
Proof.
  intros Hd HNp Hw Hc. split.
  - intros Hr Ht. eexists. eexists. split.
    + apply Npts_value; lra.
    + apply k_0_value; lra.
  - intros Hz. repeat split.
    + apply Npts_degenerate; [lra | exact Hz].
    + apply k_0_degenerate; [lra | exact Hz].
    + intros progress. apply F_degenerate; [lra | exact Hz].
Qed.

Lemma estimators_defined_away_from_zero_witness :
  (exists n k, Npts 2 3 (1 / 2) 7 1 1 = Ok n /\ k_0 2 3 (1 / 2) 1 1 = Ok k)
  /\ Npts 0 3 (1 / 2) 7 1 1 = Raise DivisionByZero.
Proof.
  split.
  - destruct (estimators_defined_away_from_zero 2 3 (1 / 2) 7 1 1)
      as [Hdef _]; try lra.
    apply Hdef; lra.
  - destruct (estimators_defined_away_from_zero 0 3 (1 / 2) 7 1 1)
      as [_ Hzero]; try lra.
    apply Hzero. left. reflexivity.
Defined.

(** ** The two regimes of the integrand *)

Lemma critical_product_lt (k w_0 c : R) :
  0 < c -> k < 2 * w_0 / c -> k * c < 2 * w_0.
Proof.
  intros Hc Hk.
  apply Rmult_lt_compat_r with (r := c) in Hk; [ | exact Hc].
  replace (2 * w_0 / c * c) with (2 * w_0) in Hk by (field; lra).
  exact Hk.
Qed.

Lemma critical_product_gt (k w_0 c : R) :
  0 < c -> 2 * w_0 / c < k -> 2 * w_0 < k * c.
Proof.
  intros Hc Hk.
  apply Rmult_lt_compat_r with (r := c) in Hk; [ | exact Hc].
  replace (2 * w_0 / c * c) with (2 * w_0) in Hk by (field; lra).
  exact Hk.
Qed.

Lemma ratio_below_critical (k w_0 c : R) :
  0 < k -> 0 < w_0 -> 0 < c -> k < 2 * w_0 / c ->
  k ^ 2 * c ^ 2 / (4 * w_0 ^ 2) < 1.
Proof.
  intros Hk Hw Hc Hlt.
  pose proof (critical_product_lt k w_0 c Hc Hlt) as Hp.
  assert (0 < k * c) by (apply Rmult_lt_0_compat; assumption).
  assert (Hden : 0 < 4 * w_0 ^ 2) by (simpl; nra).
  apply Rmult_lt_reg_r with (r := 4 * w_0 ^ 2); [exact Hden | ].
  replace (k ^ 2 * c ^ 2 / (4 * w_0 ^ 2) * (4 * w_0 ^ 2))
    with ((k * c) * (k * c)) by (field; lra).
  simpl. nra.
Qed.

Lemma ratio_above_critical (k w_0 c : R) :
  0 < k -> 0 < w_0 -> 0 < c -> 2 * w_0 / c < k ->
  1 < k ^ 2 * c ^ 2 / (4 * w_0 ^ 2).
Proof.
  intros Hk Hw Hc Hlt.
  pose proof (critical_product_gt k w_0 c Hc Hlt) as Hp.
  assert (Hden : 0 < 4 * w_0 ^ 2) by (simpl; nra).
  apply Rmult_lt_reg_r with (r := 4 * w_0 ^ 2); [exact Hden | ].
  replace (k ^ 2 * c ^ 2 / (4 * w_0 ^ 2) * (4 * w_0 ^ 2))
    with ((k * c) * (k * c)) by (field; lra).
  simpl. nra.
Qed.

(** Discharges the tests and divisions that the hypotheses decide. *)
Ltac decide_test :=
  match goal with
  | |- context [Rlt_dec ?x ?y] =>
      destruct (Rlt_dec x y); [ try (exfalso; lra) | try (exfalso; lra) ]
  | |- context [Rle_dec ?x ?y] =>
      destruct (Rle_dec x y); [ try (exfalso; lra) | try (exfalso; lra) ]
  end.

(** The branch of [f] below the critical wavenumber 2 w_0 / c. *)
Lemma f_below_critical (k r t w_0 c : R) :
  0 <= t -> 0 < k -> 0 < w_0 -> 0 < c -> k < 2 * w_0 / c ->
  f k r t w_0 c =
  div (8 * PI ^ 2 * c ^ 2 * k ^ 2 * exp (- c ^ 2 * k ^ 2 * t / (2 * w_0))
       * np_sinc (k * c * t / PI
                  * sqrt (1 - k ^ 2 * c ^ 2 / (4 * w_0 ^ 2)))
       * sin (r * k))
      (r * k).
Proof.
  intros Ht Hk Hw Hc Hlt.
  pose proof (ratio_below_critical k w_0 c Hk Hw Hc Hlt) as Hq.
  unfold f. do 2 decide_test.
  rewrite (div_ok (2 * w_0) c) by lra. cbn [bind].
  decide_test.
  rewrite (div_ok _ (2 * w_0)) by lra. cbn [bind].
  rewrite (div_ok _ (4 * w_0 ^ 2)) by (simpl; nra). cbn [bind].
  rewrite pow_half_ok by lra. cbn [bind].
  reflexivity.
Qed.

(** The branch of [f] above the critical wavenumber. *)
Lemma f_above_critical (k r t w_0 c : R) :
  0 < t -> 0 < k -> 0 < w_0 -> 0 < c -> 2 * w_0 / c < k ->
  f k r t w_0 c =
  div (8 * PI ^ 2 * c ^ 2 * k ^ 2
       * (exp (k * c * t * sqrt (-1 + k ^ 2 * c ^ 2 / (4 * w_0 ^ 2))
               - c ^ 2 * k ^ 2 * t / (2 * w_0))
          - exp (- k * c * t * sqrt (-1 + k ^ 2 * c ^ 2 / (4 * w_0 ^ 2))
                 - c ^ 2 * k ^ 2 * t / (2 * w_0)))
       / (2 * k * c * t * sqrt (-1 + k ^ 2 * c ^ 2 / (4 * w_0 ^ 2)))
       * sin (r * k))
      (r * k).
Proof.
  intros Ht Hk Hw Hc Hgt.
  pose proof (ratio_above_critical k w_0 c Hk Hw Hc Hgt) as Hq.
  assert (Hs : 0 < sqrt (-1 + k ^ 2 * c ^ 2 / (4 * w_0 ^ 2)))
    by (apply sqrt_lt_R0; lra).
  unfold f. do 2 decide_test.
  rewrite (div_ok (2 * w_0) c) by lra. cbn [bind].
  do 2 decide_test.
  repeat (rewrite (div_ok _ (4 * w_0 ^ 2)) by (simpl; nra); cbn [bind];
          rewrite pow_half_ok by lra; cbn [bind];
          try (rewrite (div_ok _ (2 * w_0)) by lra; cbn [bind])).
  rewrite div_ok; [reflexivity | ].
  assert (0 < 2 * k * c * t).
  { repeat apply Rmult_lt_0_compat; lra. }
  apply Rgt_not_eq. apply Rmult_lt_0_compat; assumption.
Qed.

(** The matching branches of the envelope. *)
Lemma e_below_critical (w_0 c k r t : R) :
  0 <= t -> 0 < k -> 0 < w_0 -> 0 < c -> k < 2 * w_0 / c ->
  e w_0 c k r t =
  div (8 * PI ^ 2 * c ^ 2 * exp (- c ^ 2 * k ^ 2 * t / (2 * w_0)))
      (r * c * t * sqrt (1 - k ^ 2 * c ^ 2 / (4 * w_0 ^ 2))).
Proof.
  intros Ht Hk Hw Hc Hlt.
  pose proof (ratio_below_critical k w_0 c Hk Hw Hc Hlt) as Hq.
  unfold e. do 2 decide_test.
  rewrite (div_ok (2 * w_0) c) by lra. cbn [bind].
  decide_test.
  rewrite (div_ok _ (2 * w_0)) by lra. cbn [bind].
  rewrite (div_ok _ (4 * w_0 ^ 2)) by (simpl; nra). cbn [bind].
  rewrite pow_half_ok by lra. cbn [bind].
  reflexivity.
Qed.

Lemma e_above_critical (w_0 c k r t : R) :
  0 < t -> 0 < k -> 0 < w_0 -> 0 < c -> 2 * w_0 / c < k ->
  e w_0 c k r t =
  div (8 * PI ^ 2 * c ^ 2
       * (exp (k * c * t * sqrt (-1 + k ^ 2 * c ^ 2 / (4 * w_0 ^ 2))
               - c ^ 2 * k ^ 2 * t / (2 * w_0))
          - exp (- k * c * t * sqrt (-1 + k ^ 2 * c ^ 2 / (4 * w_0 ^ 2))
                 - c ^ 2 * k ^ 2 * t / (2 * w_0)))
       / (2 * c * t * sqrt (-1 + k ^ 2 * c ^ 2 / (4 * w_0 ^ 2))))
      r.
Proof.
  intros Ht Hk Hw Hc Hgt.
  pose proof (ratio_above_critical k w_0 c Hk Hw Hc Hgt) as Hq.
  assert (Hs : 0 < sqrt (-1 + k ^ 2 * c ^ 2 / (4 * w_0 ^ 2)))
    by (apply sqrt_lt_R0; lra).
  unfold e. do 2 decide_test.
  rewrite (div_ok (2 * w_0) c) by lra. cbn [bind].
  do 2 decide_test.
  repeat (rewrite (div_ok _ (4 * w_0 ^ 2)) by (simpl; nra); cbn [bind];
          rewrite pow_half_ok by lra; cbn [bind];
          try (rewrite (div_ok _ (2 * w_0)) by lra; cbn [bind])).
  rewrite div_ok; [reflexivity | ].
  assert (0 < 2 * c * t).
  { repeat apply Rmult_lt_0_compat; lra. }
  apply Rgt_not_eq. apply Rmult_lt_0_compat; assumption.
Qed.

(** ** The spatial factor at the origin *)

Lemma f_at_origin_below_critical (k t w_0 c : R) :
  0 <= t -> 0 < k -> 0 < w_0 -> 0 < c -> k < 2 * w_0 / c ->
  f k 0 t w_0 c = Raise DivisionByZero.
Proof.
  intros Ht Hk Hw Hc Hlt.
  rewrite f_below_critical by assumption.
  apply div_by_zero. ring.
Qed.

(** C7, refuted as stated: at k = 1, r = 0, t = 1, w_0 = c = 1 the call
    divides by r k = 0 and yields no real number, in particular not the
    value with the spatial factor set to 1. *)
Lemma f_undefined_at_origin :
  f 1 0 1 1 1 = Raise DivisionByZero
  /\ f 1 0 1 1 1 <> Ok (spec_f_at_origin 1 1 1 1).
Proof.
  assert (E : f 1 0 1 1 1 = Raise DivisionByZero)
    by (apply f_at_origin_below_critical; lra).
  split; [exact E | rewrite E; discriminate].
Qed.

(** C7, amended: for t >= 0, 0 < k < 2 w_0/c, w_0 > 0 and c > 0: when
    r <> 0 the integrand is the real number
    8 pi^2 c^2 k^2 exp(-c^2 k^2 t/(2 w_0)) sinc(k c t sqrt(1 - k^2 c^2/(4
    w_0^2))/pi) sin(r k)/(r k); at r = 0 the spatial factor is not replaced
    by 1, the division by r k = 0 is carried out and no real number
    results. *)
Theorem f_spatial_factor (k r t w_0 c : R) :
  0 <= t -> 0 < k < 2 * w_0 / c -> 0 < w_0 -> 0 < c ->
  (r <> 0 ->
   f k r t w_0 c =
   Ok (8 * PI ^ 2 * c ^ 2 * k ^ 2 * exp (- c ^ 2 * k ^ 2 * t / (2 * w_0))
       * np_sinc (k * c * t * sqrt (1 - k ^ 2 * c ^ 2 / (4 * w_0 ^ 2)) / PI)
       * (sin (r * k) / (r * k))))
  /\ f k 0 t w_0 c = Raise DivisionByZero.
Proof.
  intros Ht [Hk Hlt] Hw Hc. split.
  - intros Hr. rewrite f_below_critical by assumption.
    rewrite div_ok by (apply Rmult_integral_contrapositive_currified; lra).
    f_equal.
    replace (k * c * t / PI * sqrt (1 - k ^ 2 * c ^ 2 / (4 * w_0 ^ 2)))
      with (k * c * t * sqrt (1 - k ^ 2 * c ^ 2 / (4 * w_0 ^ 2)) / PI)
      by (field; exact PI_neq_0).
    unfold Rdiv. ring.
  - apply f_at_origin_below_critical; assumption.
Qed.

Lemma f_spatial_factor_witness :
  f 1 2 1 1 1 =
  Ok (8 * PI ^ 2 * 1 ^ 2 * 1 ^ 2 * exp (- 1 ^ 2 * 1 ^ 2 * 1 / (2 * 1))
      * np_sinc (1 * 1 * 1 * sqrt (1 - 1 ^ 2 * 1 ^ 2 / (4 * 1 ^ 2)) / PI)
      * (sin (2 * 1) / (2 * 1)))
  /\ f 1 0 1 1 1 = Raise DivisionByZero.
Proof.
  destruct (f_spatial_factor 1 2 1 1 1) as [Hval Hzero]; try lra.
  split; [apply Hval; lra | exact Hzero].
Defined.

(** ** The envelope *)

Lemma Rabs_sin_le_1 (x : R) : Rabs (sin x) <= 1.
Proof.
  apply Rabs_le. pose proof (SIN_bound x). lra.
Qed.

(** A product of a non-negative amplitude with sines stays within the
    amplitude. *)
Lemma amplitude_bound_1 (A s : R) :
  0 <= A -> Rabs s <= 1 -> Rabs (A * s) <= A.
Proof.
  intros HA Hs. rewrite Rabs_mult. rewrite (Rabs_pos_eq A HA).
  rewrite <- (Rmult_1_r A) at 2.
  apply Rmult_le_compat_l; assumption.
Qed.

Lemma amplitude_bound_2 (A s1 s2 : R) :
  0 <= A -> Rabs s1 <= 1 -> Rabs s2 <= 1 -> Rabs (A * (s1 * s2)) <= A.
Proof.
  intros HA H1 H2. apply amplitude_bound_1; [exact HA | ].
  rewrite Rabs_mult.
  pose proof (Rabs_pos s1). pose proof (Rabs_pos s2). nra.
Qed.

Lemma envelope_below_critical (k r t w_0 c : R) :
  0 < r -> 0 < t -> 0 < k -> 0 < w_0 -> 0 < c -> k < 2 * w_0 / c ->
  exists vf ve,
    f k r t w_0 c = Ok vf /\ e w_0 c k r t = Ok ve /\ Rabs vf <= ve.
Proof.
  intros Hr Ht Hk Hw Hc Hlt.
  pose proof (ratio_below_critical k w_0 c Hk Hw Hc Hlt) as Hq.
  set (s := sqrt (1 - k ^ 2 * c ^ 2 / (4 * w_0 ^ 2))).
  assert (Hs : 0 < s) by (apply sqrt_lt_R0; lra).
  pose proof PI_RGT_0 as Hpi.
  assert (Hkct : 0 < k * c * t) by (repeat apply Rmult_lt_0_compat; lra).
  assert (Hu : 0 < k * c * t / PI * s).
  { apply Rmult_lt_0_compat; [ | exact Hs].
    apply Rdiv_lt_0_compat; assumption. }
  assert (Hrk : 0 < r * k) by (apply Rmult_lt_0_compat; lra).
  assert (Hden : 0 < r * c * t * s) by (repeat apply Rmult_lt_0_compat; lra).
  rewrite f_below_critical by lra.
  rewrite e_below_critical by lra.
  fold s.
  rewrite (div_ok _ (r * k)) by lra.
  rewrite (div_ok _ (r * c * t * s)) by lra.
  eexists. eexists. split; [reflexivity | split; [reflexivity | ]].
  unfold np_sinc.
  destruct (Req_dec_T (k * c * t / PI * s) 0) as [E | _]; [lra | ].
  set (E0 := exp (- c ^ 2 * k ^ 2 * t / (2 * w_0))).
  assert (HE0 : 0 < E0) by apply exp_pos.
  set (A := 8 * PI ^ 2 * c ^ 2 * E0 / (r * c * t * s)).
  assert (HA : 0 <= A).
  { unfold A. left. apply Rdiv_lt_0_compat; [ | exact Hden].
    apply Rmult_lt_0_compat; [ | exact HE0].
    apply Rmult_lt_0_compat; [ | apply pow_lt; exact Hc].
    apply Rmult_lt_0_compat; [lra | apply pow_lt; exact Hpi]. }
  replace (8 * PI ^ 2 * c ^ 2 * k ^ 2 * E0
           * (sin (PI * (k * c * t / PI * s)) / (PI * (k * c * t / PI * s)))
           * sin (r * k) / (r * k))
    with (A * (sin (PI * (k * c * t / PI * s)) * sin (r * k)))
    by (unfold A; field; repeat split; lra).
  apply amplitude_bound_2; [exact HA | apply Rabs_sin_le_1 ..].
Qed.

Lemma envelope_above_critical (k r t w_0 c : R) :
  0 < r -> 0 < t -> 0 < k -> 0 < w_0 -> 0 < c -> 2 * w_0 / c < k ->
  exists vf ve,
    f k r t w_0 c = Ok vf /\ e w_0 c k r t = Ok ve /\ Rabs vf <= ve.
Proof.
  intros Hr Ht Hk Hw Hc Hgt.
  pose proof (ratio_above_critical k w_0 c Hk Hw Hc Hgt) as Hq.
  set (s := sqrt (-1 + k ^ 2 * c ^ 2 / (4 * w_0 ^ 2))).
  assert (Hs : 0 < s) by (apply sqrt_lt_R0; lra).
  pose proof PI_RGT_0 as Hpi.
  assert (Hkct : 0 < k * c * t) by (repeat apply Rmult_lt_0_compat; lra).
  assert (Hrk : 0 < r * k) by (apply Rmult_lt_0_compat; lra).
  rewrite f_above_critical by lra.
  rewrite e_above_critical by lra.
  fold s.
  rewrite (div_ok _ (r * k)) by lra.
  rewrite (div_ok _ r) by lra.
  eexists. eexists. split; [reflexivity | split; [reflexivity | ]].
  set (D := exp (k * c * t * s - c ^ 2 * k ^ 2 * t / (2 * w_0))
            - exp (- k * c * t * s - c ^ 2 * k ^ 2 * t / (2 * w_0))).
  assert (HD : 0 < D).
  { unfold D.
    assert (0 < k * c * t * s) by (apply Rmult_lt_0_compat; assumption).
    assert (exp (- k * c * t * s - c ^ 2 * k ^ 2 * t / (2 * w_0))
            < exp (k * c * t * s - c ^ 2 * k ^ 2 * t / (2 * w_0)))
      by (apply exp_increasing; lra).
    lra. }
  set (A := 8 * PI ^ 2 * c ^ 2 * D / (2 * c * t * s) / r).
  assert (HA : 0 <= A).
  { unfold A. left. apply Rdiv_lt_0_compat; [ | exact Hr].
    apply Rdiv_lt_0_compat.
    - apply Rmult_lt_0_compat; [ | exact HD].
      apply Rmult_lt_0_compat; [ | apply pow_lt; exact Hc].
      apply Rmult_lt_0_compat; [lra | apply pow_lt; exact Hpi].
    - repeat apply Rmult_lt_0_compat; lra. }
  replace (8 * PI ^ 2 * c ^ 2 * k ^ 2 * D / (2 * k * c * t * s)
           * sin (r * k) / (r * k))
    with (A * sin (r * k))
    by (unfold A; field; repeat split; lra).
  apply amplitude_bound_1; [exact HA | apply Rabs_sin_le_1].
Qed.

(** C5: the envelope dominates the integrand: for r > 0, t > 0 and k > 0
    with k <> 2 w_0/c, both f(k,r,t,w_0,c) and e(k,r,t) are real numbers and
    |f| <= e (the module constants read by [e] being the w_0 and c handed to
    [f]); and [e] has the guards of [f]: it returns 0 whenever t < 0 or
    k <= 0. *)
Theorem envelope_dominates (w_0 c : R) :
  0 < w_0 -> 0 < c ->
  (forall k r t,
     0 < r -> 0 < t -> 0 < k -> k <> 2 * w_0 / c ->
     exists vf ve,
       f k r t w_0 c = Ok vf /\ e w_0 c k r t = Ok ve /\ Rabs vf <= ve)
  /\ (forall k r t,
        t < 0 \/ k <= 0 ->
        e w_0 c k r t = Ok 0 /\ f k r t w_0 c = Ok 0).
Proof.
  intros Hw Hc. split.
  - intros k r t Hr Ht Hk Hne.
    destruct (Rtotal_order k (2 * w_0 / c)) as [Hlt | [Heq | Hgt]].
    + apply envelope_below_critical; assumption.
    + contradiction.
    + apply envelope_above_critical; assumption.
  - intros k r t Hg. unfold e, f.
    destruct (Rlt_dec t 0) as [_ | Nt]; [split; reflexivity | ].
    destruct (Rle_dec k 0) as [_ | Nk]; [split; reflexivity | ].
    exfalso. destruct Hg as [Hg | Hg]; [apply Nt | apply Nk]; exact Hg.
Qed.

Lemma envelope_dominates_witness :
  (exists vf ve,
     f 1 1 1 1 1 = Ok vf /\ e 1 1 1 1 1 = Ok ve /\ Rabs vf <= ve)
  /\ (exists vf ve,
        f 3 1 1 1 1 = Ok vf /\ e 1 1 3 1 1 = Ok ve /\ Rabs vf <= ve)
  /\ e 1 1 1 1 (- 1) = Ok 0.
Proof.
  destruct (envelope_dominates 1 1) as [Hdom Hguard]; try lra.
  split; [apply Hdom; lra | split; [apply Hdom; lra | ]].
  apply Hguard. left. lra.
Defined.

(** ** The quadrature *)

Lemma py_int_IZR (z : Z) : py_int (IZR z) = z.
Proof.
  unfold py_int. destruct (Rle_dec 0 (IZR z)) as [_ | _].
  - symmetry. apply Int_part_spec. lra.
  - rewrite <- opp_IZR.
    rewrite <- (Int_part_spec (IZR (- z)) (- z)%Z) by lra. lia.
Qed.

Lemma py_int_floor (x : R) :
  0 <= x -> (0 <= py_int x)%Z /\ IZR (py_int x) <= x < IZR (py_int x) + 1.
Proof.
  intros Hx. unfold py_int. destruct (Rle_dec 0 x) as [_ | N]; [ | contradiction].
  pose proof (base_Int_part x) as [Hlo Hhi].
  split; [ | lra].
  apply le_IZR. apply Rnot_lt_le. intros Hneg.
  assert (IZR (Int_part x) <= -1).
  { apply IZR_le. apply lt_IZR in Hneg. lia. }
  lra.
Qed.

Lemma py_int_below_1 (x : R) : 0 <= x < 1 -> py_int x = 0%Z.
Proof.
  intros Hx. unfold py_int. destruct (Rle_dec 0 x) as [_ | N]; [ | lra].
  symmetry. apply Int_part_spec. lra.
Qed.

Lemma subinterval_count_floor (N : R) :
  0 <= N -> INR (subinterval_count N) <= N < INR (subinterval_count N) + 1.
Proof.
  intros HN. unfold subinterval_count, py_range. rewrite length_seq.
  destruct (py_int_floor N HN) as [Hpos Hbounds].
  rewrite INR_IZR_INZ. rewrite Z2Nat.id by exact Hpos. exact Hbounds.
Qed.

Lemma simps_unfold (g : integrand) (a b N : R) (progress : bool)
  (params : list R) :
  N <> 0 ->
  simps g a b N progress params =
  simps_loop g a (Rabs (a - b) / N) params (seq 0 (subinterval_count N)) 0.
Proof.
  intros HN. unfold simps. rewrite div_ok by exact HN. cbn [bind].
  unfold subinterval_count, tqdm, py_range. rewrite length_seq.
  destruct progress; reflexivity.
Qed.

(** C1, the failing input: with g(x) = x, a = 0, b = 1 and N = 2 the code
    returns 1/8, and with N = 1 it returns 0, while the sum of the
    per-subinterval Simpson estimates is 1/2 in both cases: the loop hands
    [simps_point] the pair (a, a + i Dx) instead of the subinterval
    (a + i Dx, a + (i+1) Dx). *)
Theorem simps_anchors_every_panel_at_a :
  simps (total (fun x => x)) 0 1 2 false [] = Ok (1 / 8)
  /\ spec_simpson_sum (fun x => x) 0 1 2 = 1 / 2
  /\ simps (total (fun x => x)) 0 1 1 false [] = Ok 0
  /\ spec_simpson_sum (fun x => x) 0 1 1 = 1 / 2.
Proof.
  assert (Habs : Rabs (0 - 1) = 1) by (rewrite Rabs_left; lra).
  assert (Hc2 : subinterval_count 2 = 2%nat)
    by (unfold subinterval_count, py_range; rewrite (py_int_IZR 2);
        reflexivity).
  assert (Hc1 : subinterval_count 1 = 1%nat)
    by (unfold subinterval_count, py_range; rewrite (py_int_IZR 1);
        reflexivity).
  repeat split.
  - rewrite simps_unfold by lra. rewrite Hc2, Habs.
    unfold total. cbn [seq simps_loop simps_point bind].
    destruct (Rlt_dec (1 / 2) 0) as [Hneg | _]; [lra | ].
    cbn [bind]. f_equal. simpl INR. field.
  - unfold spec_simpson_sum, spec_simpson_term. simpl. field.
  - rewrite simps_unfold by lra. rewrite Hc1, Habs.
    unfold total. cbn [seq simps_loop simps_point bind].
    destruct (Rlt_dec (1 / 1) 0) as [Hneg | _]; [lra | ].
    cbn [bind]. f_equal. simpl INR. field.
  - unfold spec_simpson_sum, spec_simpson_term. simpl. field.
Qed.

Lemma simps_loop_total (g : R -> R) (a Dx : R) (idx : list nat) (acc : R) :
  0 <= Dx ->
  simps_loop (total g) a Dx [] idx acc =
  Ok (fold_left (fun s i => s + simps_term g a Dx i) idx acc).
Proof.
  intros HDx. revert acc. induction idx as [ | i rest IH]; intros acc.
  - reflexivity.
  - cbn [simps_loop fold_left]. unfold simps_point, total at 1 2 3.
    destruct (Rlt_dec Dx 0) as [Hneg | _]; [lra | ].
    cbn [bind]. rewrite IH. reflexivity.
Qed.

(** The value [simps] returns for a total integrand and an integer count:
    every term starts at the lower bound a. *)
Lemma simps_total (g : R -> R) (a b : R) (n : nat) (progress : bool) :
  (0 < n)%nat ->
  simps (total g) a b (INR n) progress [] =
  Ok (fold_left (fun s i => s + simps_term g a (Rabs (a - b) / INR n) i)
        (seq 0 n) 0).
Proof.
  intros Hn.
  assert (Hpos : 0 < INR n) by (apply lt_0_INR; exact Hn).
  rewrite simps_unfold by lra.
  assert (Hcount : subinterval_count (INR n) = n).
  { unfold subinterval_count, py_range. rewrite length_seq.
    rewrite INR_IZR_INZ, py_int_IZR. apply Nat2Z.id. }
  rewrite Hcount. apply simps_loop_total.
  apply Rmult_le_pos; [apply Rabs_pos | left; apply Rinv_0_lt_compat; exact Hpos].
Qed.

Lemma F_unfold (r t delta Np w_0 c b n : R) (progress : bool) :
  k_0 r t delta w_0 c = Ok b -> Npts r t delta Np w_0 c = Ok n -> n <> 0 ->
  F r t delta Np w_0 c progress =
  simps_loop f_call (1 / 10000) (Rabs (1 / 10000 - b) / n) [r; t; w_0; c]
    (seq 0 (subinterval_count n)) 0.
Proof.
  intros Hb Hn Hne. unfold F. rewrite Hb, Hn. cbn [bind].
  apply simps_unfold. exact Hne.
Qed.

Lemma Npts_positive (r t delta Np w_0 c : R) :
  0 < r -> 0 < t -> 0 < delta -> 0 < Np -> 0 < w_0 -> 0 < c ->
  exists n, Npts r t delta Np w_0 c = Ok n /\ 0 < n.
Proof.
  intros Hr Ht Hd HNp Hw Hc. eexists. split.
  - apply Npts_value; lra.
  - apply Rmult_lt_0_compat.
    + apply Rdiv_lt_0_compat.
      * apply Rmult_lt_0_compat; [apply Rmult_lt_0_compat | ]; lra.
      * apply Rmult_lt_0_compat; [lra | exact PI_RGT_0].
    + apply sqrt_lt_R0.
      pose proof (estimator_radicand_pos r t delta w_0 c) as Hrad.
      assert (1 <= 16 * PI ^ 4 * c ^ 2 / (delta ^ 2 * r ^ 2 * t ^ 2)
                   * exp (- 2 * w_0 * t) + 1) by (apply Hrad; lra).
      lra.
Qed.

(** At r = 1, t = 100, delta = 1/2, N_p = w_0 = c = 1 the estimate lies
    strictly between 0 and 1. *)
Lemma Npts_small_example :
  exists n, Npts 1 100 (1 / 2) 1 1 1 = Ok n /\ 0 < n < 1.
Proof.
  destruct (Npts_positive 1 100 (1 / 2) 1 1 1) as [n [Hn Hpos]]; try lra.
  exists n. split; [exact Hn | split; [exact Hpos | ]].
  pose proof (Npts_value 1 100 (1 / 2) 1 1 1) as Hval.
  rewrite Hn in Hval.
  set (X := 16 * PI ^ 4 * 1 ^ 2 / ((1 / 2) ^ 2 * 1 ^ 2 * 100 ^ 2)
            * exp (-2 * 1 * 100) + 1) in Hval.
  assert (En : n = 1 * 1 * 1 / (1 * PI) * sqrt X)
    by (assert (Ok n = Ok (1 * 1 * 1 / (1 * PI) * sqrt X))
          by (apply Hval; lra);
        congruence).
  pose proof PI_RGT_0 as Hpi. pose proof PI_4 as Hpi4.
  pose proof PI2_3_2 as Hpi3.
  assert (HX : 0 <= X < 9).
  { unfold X.
    assert (He : 0 < exp (-2 * 1 * 100) < 1).
    { split; [apply exp_pos | apply exp_neg_lt_1; lra]. }
    assert (Hp4 : 0 < PI ^ 4 <= 256).
    { split; [apply pow_lt; exact Hpi | ].
      replace 256 with (4 ^ 4) by ring. apply pow_incr. lra. }
    replace (16 * PI ^ 4 * 1 ^ 2 / ((1 / 2) ^ 2 * 1 ^ 2 * 100 ^ 2))
      with (PI ^ 4 * (16 / 2500)) by field.
    nra. }
  assert (Hs : sqrt X < 3).
  { replace 3 with (sqrt (3 * 3)) by (apply sqrt_square; lra).
    apply sqrt_lt_1; lra. }
  pose proof (sqrt_pos X) as Hs0.
  rewrite En.
  replace (1 * 1 * 1 / (1 * PI)) with (/ PI) by (field; lra).
  apply Rmult_lt_reg_l with (r := PI); [exact Hpi | ].
  rewrite <- Rmult_assoc. rewrite Rinv_r by lra. lra.
Qed.

Lemma F_small_example (progress : bool) :
  F 1 100 (1 / 2) 1 1 1 progress = Ok 0.
Proof.
  destruct Npts_small_example as [n [Hn [Hpos Hlt]]].
  assert (Hb : exists b, k_0 1 100 (1 / 2) 1 1 = Ok b)
    by (eexists; apply k_0_value; lra).
  destruct Hb as [b Hb].
  rewrite (F_unfold _ _ _ _ _ _ b n) by (try assumption; lra).
  unfold subinterval_count. rewrite py_int_below_1 by lra. reflexivity.
Qed.

(** C6, refuted as stated: at r = 1, t = 100, delta = 1/2,
    N_p = w_0 = c = 1 the estimate n is positive, its ceiling is 1, yet the
    loop of [F] runs [int(n)] = 0 times and [F] returns 0. *)
Lemma F_count_truncates_to_zero :
  exists n,
    Npts 1 100 (1 / 2) 1 1 1 = Ok n
    /\ 0 < n
    /\ spec_ceiling n = 1%Z
    /\ subinterval_count n = 0%nat
    /\ F 1 100 (1 / 2) 1 1 1 false = Ok 0.
Proof.
  destruct Npts_small_example as [n [Hn [Hpos Hlt]]].
  assert (Hcount : subinterval_count n = 0%nat).
  { unfold subinterval_count. rewrite py_int_below_1 by lra. reflexivity. }
  exists n. repeat split; try assumption.
  - unfold spec_ceiling.
    rewrite <- (Int_part_spec (- n) (- 1)%Z) by lra. reflexivity.
  - apply F_small_example.
Qed.

(** C6, amended: at every evaluation point with r > 0, t > 0 and valid
    parameters the estimate n is positive, and the loop of the quadrature
    step of [F] runs [int(n)] times: n truncated toward zero, the largest
    integer not above n.  The count is therefore 0 when n < 1, and [F]
    then returns 0. *)
Theorem F_subinterval_count_truncated (r t delta Np w_0 c : R)
  (progress : bool) :
  0 < r -> 0 < t -> 0 < delta -> 0 < Np -> 0 < w_0 -> 0 < c ->
  exists b n,
    k_0 r t delta w_0 c = Ok b
    /\ Npts r t delta Np w_0 c = Ok n
    /\ 0 < n
    /\ F r t delta Np w_0 c progress =
       simps_loop f_call (1 / 10000) (Rabs (1 / 10000 - b) / n)
         [r; t; w_0; c] (seq 0 (subinterval_count n)) 0
    /\ INR (subinterval_count n) <= n < INR (subinterval_count n) + 1
    /\ (n < 1 -> F r t delta Np w_0 c progress = Ok 0).
Proof.
  intros Hr Ht Hd HNp Hw Hc.
  destruct (Npts_positive r t delta Np w_0 c) as [n [Hn Hpos]]; try assumption.
  assert (Hb : k_0 r t delta w_0 c =
               Ok (2 * w_0 / c
                   * sqrt (16 * PI ^ 4 * c ^ 2 / (delta ^ 2 * r ^ 2 * t ^ 2)
                           * exp (- 2 * w_0 * t) + 1)))
    by (apply k_0_value; lra).
  eexists. exists n.
  split; [exact Hb | split; [exact Hn | split; [exact Hpos | ]]].
  assert (HF := F_unfold r t delta Np w_0 c _ n progress Hb Hn
                  (Rgt_not_eq _ _ Hpos)).
  split; [exact HF | split].
  - apply subinterval_count_floor. lra.
  - intros Hlt. rewrite HF.
    unfold subinterval_count. rewrite py_int_below_1 by lra. reflexivity.
Qed.

Lemma F_subinterval_count_truncated_witness :
  exists b n,
    k_0 1 100 (1 / 2) 1 1 = Ok b
    /\ Npts 1 100 (1 / 2) 1 1 1 = Ok n
    /\ 0 < n
    /\ F 1 100 (1 / 2) 1 1 1 true =
       simps_loop f_call (1 / 10000) (Rabs (1 / 10000 - b) / n)
         [1; 100; 1; 1] (seq 0 (subinterval_count n)) 0
    /\ INR (subinterval_count n) <= n < INR (subinterval_count n) + 1
    /\ (n < 1 -> F 1 100 (1 / 2) 1 1 1 true = Ok 0).
Proof.
  apply (F_subinterval_count_truncated 1 100 (1 / 2) 1 1 1 true); lra.
Defined.

(** ** The radius sweep *)

(** The array a returning call hands back is computed from the arguments
    alone. *)
Lemma F_slice_returned_array (G : globals) (r_min r_max : R) (Nr : Z)
  (t delta Np w_0 c : R) (progress : bool) (a : list R) :
  result (F_slice G r_min r_max Nr t delta Np w_0 c progress) = Ok a ->
  (Rs <- linspace r_min r_max Nr ;; F_slice_loop t delta Np w_0 c Rs []) = Ok a.
Proof.
  unfold F_slice.
  destruct (F_slice_report G r_min r_max Nr t delta Np w_0 c) as [printed | x];
    cbn [result]; [ | discriminate].
  destruct (linspace r_min r_max Nr) as [Rs | x]; cbn [bind]; [ | discriminate].
  destruct (read_global (t_min G)) as [lo | x]; cbn [bind]; [ | discriminate].
  destruct (read_global (t_max G)) as [hi | x]; cbn [bind]; [ | discriminate].
  destruct (read_global (Nt G)) as [nt | x]; cbn [bind]; [ | discriminate].
  destruct (linspace lo hi nt) as [Ts | x]; cbn [bind]; [ | discriminate].
  unfold tqdm. destruct progress; intros H; exact H.
Qed.

(** The diagnostic report reads [Nt] and nothing else from the module. *)
Lemma F_slice_report_needs_Nt (G1 G2 : globals) (r_min r_max : R) (Nr : Z)
  (t delta Np w_0 c : R) (printed : list pyval) (nt : Z) :
  F_slice_report G1 r_min r_max Nr t delta Np w_0 c = Ok printed ->
  Nt G2 = Some nt ->
  exists printed',
    F_slice_report G2 r_min r_max Nr t delta Np w_0 c = Ok printed'.
Proof.
  unfold F_slice_report. intros H1 H2. rewrite H2. cbn [read_global bind].
  destruct (read_global (Nt G1)) as [nt1 | x]; cbn [bind] in H1;
    [ | discriminate].
  destruct (div (r_max - r_min) (IZR Nr)); cbn [bind] in *; [ | discriminate].
  destruct (div (2 * w_0) c); cbn [bind] in *; [ | discriminate].
  destruct (k_0 r_min t delta w_0 c); cbn [bind] in *; [ | discriminate].
  destruct (k_0 r_max t delta w_0 c); cbn [bind] in *; [ | discriminate].
  destruct (Npts r_min t delta Np w_0 c); cbn [bind] in *; [ | discriminate].
  destruct (Npts r_max t delta Np w_0 c); cbn [bind] in *; [ | discriminate].
  eexists. reflexivity.
Qed.

Lemma linspace_defined (lo hi : R) (n : Z) :
  (0 <= n)%Z -> exists xs, linspace lo hi n = Ok xs.
Proof.
  intros Hn. unfold linspace.
  destruct (n <? 0)%Z eqn:E; [apply Z.ltb_lt in E; lia | ].
  destruct (n =? 1)%Z; eexists; reflexivity.
Qed.

(** C10: the array returned by [F_slice] depends only on its arguments:
    two calls with equal arguments that return, return equal arrays,
    whatever the module-level [t_min], [t_max] and [Nt] are; and when one
    call returns an array, the call with the same arguments under any other
    binding of the three names (with a sample count [Nt] that [np.linspace]
    accepts) returns that same array.  The three names reach only the
    printed report and the unused local [T]. *)
Theorem F_slice_independent_of_globals (G1 G2 : globals) (r_min r_max : R)
  (Nr : Z) (t delta Np w_0 c : R) (progress : bool) :
  (forall a1 a2,
     result (F_slice G1 r_min r_max Nr t delta Np w_0 c progress) = Ok a1 ->
     result (F_slice G2 r_min r_max Nr t delta Np w_0 c progress) = Ok a2 ->
     a1 = a2)
  /\ (forall a lo hi nt,
        result (F_slice G1 r_min r_max Nr t delta Np w_0 c progress) = Ok a ->
        t_min G2 = Some lo -> t_max G2 = Some hi -> Nt G2 = Some nt ->
        (0 <= nt)%Z ->
        result (F_slice G2 r_min r_max Nr t delta Np w_0 c progress) = Ok a).
Proof.
  split.
  - intros a1 a2 H1 H2.
    apply F_slice_returned_array in H1. apply F_slice_returned_array in H2.
    rewrite H1 in H2. injection H2 as H2. exact H2.
  - intros a lo hi nt H1 Hlo Hhi Hnt Hpos.
    pose proof (F_slice_returned_array _ _ _ _ _ _ _ _ _ _ _ H1) as Harr.
    unfold F_slice in H1 |- *.
    destruct (F_slice_report G1 r_min r_max Nr t delta Np w_0 c)
      as [printed | x] eqn:Hrep; cbn [result] in H1; [ | discriminate].
    destruct (F_slice_report_needs_Nt G1 G2 _ _ _ _ _ _ _ _ _ nt Hrep Hnt)
      as [printed' Hrep'].
    rewrite Hrep'. cbn [result].
    rewrite Hlo, Hhi, Hnt. cbn [read_global].
    destruct (linspace_defined lo hi nt Hpos) as [Ts HTs].
    destruct (linspace r_min r_max Nr) as [Rs | x]; cbn [bind] in *;
      [ | discriminate].
    rewrite HTs. cbn [bind]. unfold tqdm.
    destruct progress; exact Harr.
Qed.

(** A sweep of one radius whose integral has no subinterval. *)
Lemma F_slice_example (lo hi : R) (nt : Z) :
  (0 <= nt)%Z ->
  result (F_slice {| t_min := Some lo; t_max := Some hi; Nt := Some nt |}
            1 1 1 100 (1 / 2) 1 1 1 true) = Ok [0].
Proof.
  intros Hnt.
  destruct Npts_small_example as [n [Hn _]].
  pose proof (F_small_example false) as HF.
  assert (Hk : exists b, k_0 1 100 (1 / 2) 1 1 = Ok b)
    by (eexists; apply k_0_value; lra).
  destruct Hk as [b Hb].
  destruct (linspace_defined lo hi nt Hnt) as [Ts HTs].
  unfold F_slice, F_slice_report. cbn [Nt t_min t_max read_global bind].
  rewrite (div_ok _ (IZR 1)) by lra. cbn [bind].
  rewrite (div_ok _ 1) by lra. cbn [bind].
  rewrite Hb, Hn. cbn [bind result].
  unfold linspace at 1. cbn [Z.ltb Z.eqb Z.compare Pos.compare Pos.eqb bind].
  rewrite HTs. cbn [bind]. unfold tqdm. cbn [F_slice_loop].
  rewrite HF. reflexivity.
Qed.

Lemma F_slice_independent_of_globals_witness :
  result (F_slice {| t_min := Some 0; t_max := Some 1; Nt := Some 5%Z |}
            1 1 1 100 (1 / 2) 1 1 1 true) = Ok [0]
  /\ result (F_slice {| t_min := Some 7; t_max := Some 9; Nt := Some 3%Z |}
               1 1 1 100 (1 / 2) 1 1 1 true) = Ok [0].
Proof.
  assert (H1 : result
                 (F_slice {| t_min := Some 0; t_max := Some 1;
                             Nt := Some 5%Z |}
                    1 1 1 100 (1 / 2) 1 1 1 true) = Ok [0])
    by (apply F_slice_example; lia).
  split; [exact H1 | ].
  destruct (F_slice_independent_of_globals
              {| t_min := Some 0; t_max := Some 1; Nt := Some 5%Z |}
              {| t_min := Some 7; t_max := Some 9; Nt := Some 3%Z |}
              1 1 1 100 (1 / 2) 1 1 1 true) as [_ Hsame].
  apply (Hsame [0] 7 9 3%Z); [exact H1 | reflexivity .. | lia].
Defined.

(** * Further properties of the integration notebook *)

(** ** The integrand at the edges of its regimes *)

Lemma integrand_zero_at_critical_aux (r t w_0 c : R) :
  c <> 0 ->
  f (2 * w_0 / c) r t w_0 c = Ok 0 /\ e w_0 c (2 * w_0 / c) r t = Ok 0.
Proof.
  intros Hc. unfold f, e.
  destruct (Rlt_dec t 0) as [_ | _]; [split; reflexivity | ].
  destruct (Rle_dec (2 * w_0 / c) 0) as [_ | _]; [split; reflexivity | ].
  rewrite (div_ok (2 * w_0) c) by exact Hc. cbn [bind].
  destruct (Rlt_dec (2 * w_0 / c) (2 * w_0 / c)) as [Hlt | _]; [lra | ].
  split; reflexivity.
Qed.

(** X1: At the critical wavenumber k = 2 w_0/c the integrand and the envelope
    return 0 for every r and t, r = 0 and t = 0 included: neither divides by
    r or t there. *)
Theorem integrand_zero_at_critical (r t w_0 c : R) :
  c <> 0 ->
  f (2 * w_0 / c) r t w_0 c = Ok 0 /\ e w_0 c (2 * w_0 / c) r t = Ok 0.
Proof. apply integrand_zero_at_critical_aux. Qed.

Lemma integrand_zero_at_critical_witness :
  f (2 * 3 / 5) 0 0 3 5 = Ok 0 /\ e 3 5 (2 * 3 / 5) 0 0 = Ok 0.
Proof. apply (integrand_zero_at_critical 0 0 3 5). lra. Defined.

(** X2: For r <> 0 and t > 0 (w_0 > 0, c > 0) the integrand and the envelope
    return a real number at every wavenumber k: no sample of a quadrature
    can fail. *)
Theorem integrand_defined_everywhere (k r t w_0 c : R) :
  r <> 0 -> 0 < t -> 0 < w_0 -> 0 < c ->
  exists vf ve, f k r t w_0 c = Ok vf /\ e w_0 c k r t = Ok ve.
Proof.
  intros Hr Ht Hw Hc.
  destruct (Rle_dec k 0) as [Hk | Hk].
  - exists 0, 0. unfold f, e.
    destruct (Rlt_dec t 0) as [_ | _]; [split; reflexivity | ].
    destruct (Rle_dec k 0) as [_ | N]; [split; reflexivity | contradiction].
  - assert (Hk0 : 0 < k) by lra.
    assert (Hrk : r * k <> 0)
      by (apply Rmult_integral_contrapositive_currified; lra).
    destruct (Rtotal_order k (2 * w_0 / c)) as [Hlt | [Heq | Hgt]].
    + pose proof (ratio_below_critical k w_0 c Hk0 Hw Hc Hlt) as Hq.
      assert (Hs : 0 < sqrt (1 - k ^ 2 * c ^ 2 / (4 * w_0 ^ 2)))
        by (apply sqrt_lt_R0; lra).
      rewrite f_below_critical, e_below_critical by lra.
      rewrite (div_ok _ (r * k)) by exact Hrk.
      rewrite div_ok; [eexists; eexists; split; reflexivity | ].
      repeat apply Rmult_integral_contrapositive_currified; lra.
    + subst k. exists 0, 0. apply integrand_zero_at_critical_aux. lra.
    + pose proof (ratio_above_critical k w_0 c Hk0 Hw Hc Hgt) as Hq.
      rewrite f_above_critical, e_above_critical by lra.
      rewrite (div_ok _ (r * k)) by exact Hrk.
      rewrite (div_ok _ r) by exact Hr.
      eexists; eexists; split; reflexivity.
Qed.

Lemma integrand_defined_everywhere_witness :
  exists vf ve, f 7 (- 2) 3 1 1 = Ok vf /\ e 1 1 7 (- 2) 3 = Ok ve.
Proof. apply (integrand_defined_everywhere 7 (- 2) 3 1 1); lra. Defined.

(** X3: At t = 0 (r <> 0, w_0 > 0, c > 0): below the critical wavenumber the
    integrand is 8 pi^2 c^2 k^2 sin(r k)/(r k); above it the call divides by
    2 k c t sqrt(...) = 0; and the envelope divides by zero in both
    regimes. *)
Theorem integrand_at_time_zero (k r w_0 c : R) :
  r <> 0 -> 0 < k -> 0 < w_0 -> 0 < c ->
  (k < 2 * w_0 / c ->
   f k r 0 w_0 c = Ok (8 * PI ^ 2 * c ^ 2 * k ^ 2 * (sin (r * k) / (r * k)))
   /\ e w_0 c k r 0 = Raise DivisionByZero)
  /\ (2 * w_0 / c < k ->
      f k r 0 w_0 c = Raise DivisionByZero
      /\ e w_0 c k r 0 = Raise DivisionByZero).
Proof.
  intros Hr Hk Hw Hc. split.
  - intros Hlt. split.
    + rewrite f_below_critical by lra.
      rewrite div_ok by (apply Rmult_integral_contrapositive_currified; lra).
      f_equal.
      replace (- c ^ 2 * k ^ 2 * 0 / (2 * w_0)) with 0 by (field; lra).
      replace (k * c * 0 / PI
               * sqrt (1 - k ^ 2 * c ^ 2 / (4 * w_0 ^ 2)))
        with 0 by (field; exact PI_neq_0).
      rewrite exp_0. unfold np_sinc.
      destruct (Req_dec_T 0 0) as [_ | N]; [ | contradiction].
      unfold Rdiv. ring.
    + rewrite e_below_critical by lra. apply div_by_zero. ring.
  - intros Hgt.
    pose proof (ratio_above_critical k w_0 c Hk Hw Hc Hgt) as Hq.
    split.
    + unfold f. do 2 decide_test.
      rewrite (div_ok (2 * w_0) c) by lra. cbn [bind].
      do 2 decide_test.
      repeat (rewrite (div_ok _ (4 * w_0 ^ 2)) by (simpl; nra); cbn [bind];
              rewrite pow_half_ok by lra; cbn [bind];
              try (rewrite (div_ok _ (2 * w_0)) by lra; cbn [bind])).
      rewrite div_by_zero by ring. reflexivity.
    + unfold e. do 2 decide_test.
      rewrite (div_ok (2 * w_0) c) by lra. cbn [bind].
      do 2 decide_test.
      repeat (rewrite (div_ok _ (4 * w_0 ^ 2)) by (simpl; nra); cbn [bind];
              rewrite pow_half_ok by lra; cbn [bind];
              try (rewrite (div_ok _ (2 * w_0)) by lra; cbn [bind])).
      rewrite div_by_zero by ring. reflexivity.
Qed.

Lemma integrand_at_time_zero_witness :
  (f 1 2 0 1 1 = Ok (8 * PI ^ 2 * 1 ^ 2 * 1 ^ 2 * (sin (2 * 1) / (2 * 1)))
   /\ e 1 1 1 2 0 = Raise DivisionByZero)
  /\ (f 3 2 0 1 1 = Raise DivisionByZero
      /\ e 1 1 3 2 0 = Raise DivisionByZero).
Proof.
  destruct (integrand_at_time_zero 1 2 1 1) as [Hlo _]; try lra.
  destruct (integrand_at_time_zero 3 2 1 1) as [_ Hhi]; try lra.
  split; [apply Hlo; lra | apply Hhi; lra].
Defined.

Lemma Rabs_sin_le_Rabs (x : R) : Rabs (sin x) <= Rabs x.
Proof.
  assert (Hpos : forall y, 0 < y -> Rabs (sin y) <= y).
  { intros y Hy. apply Rabs_le. split.
    - destruct (Rle_dec y 1) as [Hy1 | Hy1].
      + assert (0 < sin y).
        { apply sin_gt_0; [exact Hy | ]. pose proof PI2_3_2. lra. }
        lra.
      + pose proof (SIN_bound y). lra.
    - left. apply sin_lt_x. exact Hy. }
  destruct (Rtotal_order x 0) as [Hneg | [Hz | Hp]].
  - rewrite (Rabs_left x Hneg).
    replace (sin x) with (- sin (- x)) by (rewrite sin_neg; ring).
    rewrite Rabs_Ropp. apply Hpos. lra.
  - subst x. rewrite sin_0. lra.
  - rewrite (Rabs_right x) by lra. apply Hpos. exact Hp.
Qed.

Lemma Rabs_sin_over_le_1 (x : R) : x <> 0 -> Rabs (sin x / x) <= 1.
Proof.
  intros Hx. unfold Rdiv. rewrite Rabs_mult, Rabs_inv.
  assert (0 < Rabs x) by (apply Rabs_pos_lt; exact Hx).
  apply Rmult_le_reg_r with (r := Rabs x); [assumption | ].
  rewrite Rmult_assoc, Rinv_l by lra.
  pose proof (Rabs_sin_le_Rabs x). lra.
Qed.

Lemma Rabs_np_sinc_le_1 (x : R) : Rabs (np_sinc x) <= 1.
Proof.
  unfold np_sinc. destruct (Req_dec_T x 0) as [_ | Hx].
  - rewrite Rabs_R1. lra.
  - apply Rabs_sin_over_le_1.
    apply Rmult_integral_contrapositive_currified; [exact PI_neq_0 | exact Hx].
Qed.

(** X4: Below the critical wavenumber the integrand is bounded independently of
    r: for t >= 0, 0 < k < 2 w_0/c and r <> 0,
    |f| <= 8 pi^2 c^2 k^2 exp(-c^2 k^2 t/(2 w_0)) <= 8 pi^2 c^2 k^2. *)
Theorem integrand_bound_below_critical (k r t w_0 c : R) :
  r <> 0 -> 0 <= t -> 0 < k < 2 * w_0 / c -> 0 < w_0 -> 0 < c ->
  exists v,
    f k r t w_0 c = Ok v
    /\ Rabs v <= 8 * PI ^ 2 * c ^ 2 * k ^ 2
                 * exp (- c ^ 2 * k ^ 2 * t / (2 * w_0))
    /\ Rabs v <= 8 * PI ^ 2 * c ^ 2 * k ^ 2.
Proof.
  intros Hr Ht [Hk Hlt] Hw Hc.
  assert (Hrk : r * k <> 0)
    by (apply Rmult_integral_contrapositive_currified; lra).
  rewrite f_below_critical by lra. rewrite div_ok by exact Hrk.
  eexists. split; [reflexivity | ].
  set (A := 8 * PI ^ 2 * c ^ 2 * k ^ 2).
  set (E := exp (- c ^ 2 * k ^ 2 * t / (2 * w_0))).
  set (S1 := np_sinc (k * c * t / PI
                      * sqrt (1 - k ^ 2 * c ^ 2 / (4 * w_0 ^ 2)))).
  assert (HA : 0 <= A).
  { unfold A. pose proof PI_RGT_0.
    assert (0 <= PI ^ 2) by apply pow2_ge_0.
    assert (0 <= c ^ 2) by apply pow2_ge_0.
    assert (0 <= k ^ 2) by apply pow2_ge_0.
    apply Rmult_le_pos; [ | assumption].
    apply Rmult_le_pos; [ | assumption].
    apply Rmult_le_pos; [lra | assumption]. }
  assert (HE : 0 < E <= 1).
  { split; [apply exp_pos | ].
    unfold E.
    destruct (Req_dec_T t 0) as [Hz | Hne].
    - subst t.
      replace (- c ^ 2 * k ^ 2 * 0 / (2 * w_0)) with 0 by (field; lra).
      rewrite exp_0. lra.
    - left. apply exp_neg_lt_1.
      assert (0 < c ^ 2) by (apply pow_lt; lra).
      assert (0 < k ^ 2) by (apply pow_lt; lra).
      assert (0 < c ^ 2 * k ^ 2 * t).
      { apply Rmult_lt_0_compat; [apply Rmult_lt_0_compat | ]; lra. }
      assert (0 < c ^ 2 * k ^ 2 * t / (2 * w_0))
        by (apply Rdiv_lt_0_compat; lra).
      replace (- c ^ 2 * k ^ 2 * t / (2 * w_0))
        with (- (c ^ 2 * k ^ 2 * t / (2 * w_0))) by (field; lra).
      lra. }
  assert (Hbound : Rabs (A * E * S1 * sin (r * k) / (r * k)) <= A * E).
  { replace (A * E * S1 * sin (r * k) / (r * k))
      with ((A * E) * (S1 * (sin (r * k) / (r * k))))
      by (unfold Rdiv; ring).
    apply amplitude_bound_2.
    - apply Rmult_le_pos; lra.
    - apply Rabs_np_sinc_le_1.
    - apply Rabs_sin_over_le_1. exact Hrk. }
  split; [exact Hbound | ].
  apply Rle_trans with (r2 := A * E); [exact Hbound | ].
  rewrite <- (Rmult_1_r A) at 2. apply Rmult_le_compat_l; lra.
Qed.

Lemma integrand_bound_below_critical_witness :
  exists v,
    f 1 (1 / 1000) 2 1 1 = Ok v
    /\ Rabs v <= 8 * PI ^ 2 * 1 ^ 2 * 1 ^ 2
                 * exp (- 1 ^ 2 * 1 ^ 2 * 2 / (2 * 1))
    /\ Rabs v <= 8 * PI ^ 2 * 1 ^ 2 * 1 ^ 2.
Proof. apply (integrand_bound_below_critical 1 (1 / 1000) 2 1 1); lra. Defined.

(** ** The estimators *)

(** X5: The cutoff never falls below the critical wavenumber: for r, t, delta
    non-zero and w_0, c > 0, k_0 >= 2 w_0/c, so the integration range of [F]
    always contains the whole oscillatory regime. *)
Theorem k_0_at_least_critical (r t delta w_0 c : R) :
  r <> 0 -> t <> 0 -> delta <> 0 -> 0 < w_0 -> 0 < c ->
  exists b, k_0 r t delta w_0 c = Ok b /\ 2 * w_0 / c <= b.
Proof.
  intros Hr Ht Hd Hw Hc.
  eexists. split; [apply k_0_value; lra | ].
  pose proof (estimator_radicand_pos r t delta w_0 c Hd Hr Ht) as Hrad.
  assert (Hs : 1 <= sqrt (16 * PI ^ 4 * c ^ 2 / (delta ^ 2 * r ^ 2 * t ^ 2)
                          * exp (- 2 * w_0 * t) + 1)).
  { rewrite <- sqrt_1 at 1. apply sqrt_le_1; lra. }
  assert (Hp : 0 < 2 * w_0 / c) by (apply Rdiv_lt_0_compat; lra).
  rewrite <- (Rmult_1_r (2 * w_0 / c)) at 1.
  apply Rmult_le_compat_l; lra.
Qed.

Lemma k_0_at_least_critical_witness :
  exists b, k_0 (- 1) 2 (1 / 1000) 3 5 = Ok b /\ 2 * 3 / 5 <= b.
Proof. apply (k_0_at_least_critical (- 1) 2 (1 / 1000) 3 5); lra. Defined.

(** X6: A tighter tolerance never shortens the integration range: for
    0 < delta1 <= delta2 the cutoff at delta2 is at most the cutoff at
    delta1. *)
Theorem k_0_antitone_in_delta (r t delta1 delta2 w_0 c : R) :
  r <> 0 -> t <> 0 -> 0 < delta1 <= delta2 -> 0 < w_0 -> 0 < c ->
  exists b1 b2,
    k_0 r t delta1 w_0 c = Ok b1 /\ k_0 r t delta2 w_0 c = Ok b2 /\ b2 <= b1.
Proof.
  intros Hr Ht [Hd1 Hd] Hw Hc.
  eexists. eexists.
  split; [apply k_0_value; lra | split; [apply k_0_value; lra | ]].
  assert (Hp : 0 < 2 * w_0 / c) by (apply Rdiv_lt_0_compat; lra).
  apply Rmult_le_compat_l; [lra | ].
  pose proof (estimator_radicand_pos r t delta2 w_0 c) as Hrad2.
  pose proof (estimator_divisor_pos r t delta1) as Hden1.
  pose proof (estimator_divisor_pos r t delta2) as Hden2.
  assert (H1 : 0 < delta1 ^ 2 * r ^ 2 * t ^ 2) by (apply Hden1; lra).
  assert (H2 : 0 < delta2 ^ 2 * r ^ 2 * t ^ 2) by (apply Hden2; lra).
  assert (Hle : delta1 ^ 2 * r ^ 2 * t ^ 2 <= delta2 ^ 2 * r ^ 2 * t ^ 2).
  { assert (0 < r ^ 2) by (apply sq_pos; exact Hr).
    assert (0 < t ^ 2) by (apply sq_pos; exact Ht).
    assert (delta1 ^ 2 <= delta2 ^ 2) by (simpl; nra).
    apply Rmult_le_compat_r; [lra | ].
    apply Rmult_le_compat_r; lra. }
  assert (Hnum : 0 <= 16 * PI ^ 4 * c ^ 2).
  { assert (0 < PI ^ 4) by (apply pow_lt; exact PI_RGT_0).
    assert (0 < c ^ 2) by (apply pow_lt; lra).
    apply Rmult_le_pos; [apply Rmult_le_pos | ]; lra. }
  assert (Hq : 16 * PI ^ 4 * c ^ 2 / (delta2 ^ 2 * r ^ 2 * t ^ 2)
               <= 16 * PI ^ 4 * c ^ 2 / (delta1 ^ 2 * r ^ 2 * t ^ 2)).
  { unfold Rdiv. apply Rmult_le_compat_l; [exact Hnum | ].
    apply Rinv_le_contravar; assumption. }
  pose proof (exp_pos (- 2 * w_0 * t)) as He.
  apply sqrt_le_1.
  - assert (1 <= 16 * PI ^ 4 * c ^ 2 / (delta2 ^ 2 * r ^ 2 * t ^ 2)
                 * exp (- 2 * w_0 * t) + 1) by (apply Hrad2; lra).
    lra.
  - pose proof (estimator_radicand_pos r t delta1 w_0 c) as Hrad1.
    assert (1 <= 16 * PI ^ 4 * c ^ 2 / (delta1 ^ 2 * r ^ 2 * t ^ 2)
                 * exp (- 2 * w_0 * t) + 1) by (apply Hrad1; lra).
    lra.
  - apply Rplus_le_compat_r. apply Rmult_le_compat_r; lra.
Qed.

Lemma k_0_antitone_in_delta_witness :
  exists b1 b2,
    k_0 1 1 (1 / 1000) 1 1 = Ok b1 /\ k_0 1 1 (1 / 10) 1 1 = Ok b2
    /\ b2 <= b1.
Proof.
  apply (k_0_antitone_in_delta 1 1 (1 / 1000) (1 / 10) 1 1); lra.
Defined.

(** X7: The subinterval estimate is the cutoff times r N_p/(2 pi): wherever
    both are defined, Npts = k_0 r N_p / (2 pi). *)
Theorem Npts_is_cutoff_times_density (r t delta Np w_0 c : R) :
  c <> 0 -> delta <> 0 -> r <> 0 -> t <> 0 ->
  exists n b,
    Npts r t delta Np w_0 c = Ok n /\ k_0 r t delta w_0 c = Ok b
    /\ n = b * r * Np / (2 * PI).
Proof. apply Npts_from_k_0. Qed.

Lemma Npts_is_cutoff_times_density_witness :
  exists n b,
    Npts 2 3 (1 / 100) 50 1 1 = Ok n /\ k_0 2 3 (1 / 100) 1 1 = Ok b
    /\ n = b * 2 * 50 / (2 * PI).
Proof.
  apply (Npts_is_cutoff_times_density 2 3 (1 / 100) 50 1 1); lra.
Defined.

(** The estimators fail in one way only: each returns a real number or
    stops at a division by zero. *)
Lemma k_0_cases (r t delta w_0 c : R) :
  (exists b, k_0 r t delta w_0 c = Ok b)
  \/ k_0 r t delta w_0 c = Raise DivisionByZero.
Proof.
  unfold k_0, div.
  destruct (Req_dec_T c 0) as [_ | Hc]; [right; reflexivity | ]. cbn [bind].
  destruct (Req_dec_T (delta ^ 2 * r ^ 2 * t ^ 2) 0) as [_ | Hden];
    [right; reflexivity | ]. cbn [bind].
  left. rewrite pow_half_ok; [eexists; reflexivity | ].
  assert (Hd : delta <> 0) by (intros ->; apply Hden; ring).
  assert (Hr : r <> 0) by (intros ->; apply Hden; ring).
  assert (Ht : t <> 0) by (intros ->; apply Hden; ring).
  pose proof (estimator_radicand_pos r t delta w_0 c Hd Hr Ht). lra.
Qed.

Lemma Npts_cases (r t delta Np w_0 c : R) :
  (exists n, Npts r t delta Np w_0 c = Ok n)
  \/ Npts r t delta Np w_0 c = Raise DivisionByZero.
Proof.
  unfold Npts, div.
  destruct (Req_dec_T (c * PI) 0) as [_ | Hc]; [right; reflexivity | ].
  cbn [bind].
  destruct (Req_dec_T (delta ^ 2 * r ^ 2 * t ^ 2) 0) as [_ | Hden];
    [right; reflexivity | ]. cbn [bind].
  left. rewrite pow_half_ok; [eexists; reflexivity | ].
  assert (Hd : delta <> 0) by (intros ->; apply Hden; ring).
  assert (Hr : r <> 0) by (intros ->; apply Hden; ring).
  assert (Ht : t <> 0) by (intros ->; apply Hden; ring).
  pose proof (estimator_radicand_pos r t delta w_0 c Hd Hr Ht). lra.
Qed.

(** ** The quadrature *)

(** X8: With the default [Dx = -1], [simps_point] on a <= b is Simpson's rule on
    [a, b] and integrates every cubic polynomial exactly. *)
Theorem simps_point_exact_on_cubics (c0 c1 c2 c3 a b : R) :
  a <= b ->
  simps_point (total (fun x => c0 + c1 * x + c2 * x ^ 2 + c3 * x ^ 3))
    a b (- 1) [] =
  Ok (c0 * (b - a) + c1 * (b ^ 2 - a ^ 2) / 2 + c2 * (b ^ 3 - a ^ 3) / 3
      + c3 * (b ^ 4 - a ^ 4) / 4).
Proof.
  intros Hab. unfold simps_point, total. cbn [bind].
  destruct (Rlt_dec (- 1) 0) as [_ | N]; [ | lra].
  replace (Rabs (a - b)) with (b - a).
  - f_equal. field.
  - destruct (Req_dec_T a b) as [-> | Hne].
    + replace (b - b) with 0 by ring. rewrite Rabs_R0. reflexivity.
    + rewrite Rabs_left by lra. ring.
Qed.

Lemma simps_point_exact_on_cubics_witness :
  simps_point (total (fun x => 1 + 2 * x + 3 * x ^ 2 + 4 * x ^ 3))
    0 2 (- 1) [] =
  Ok (1 * (2 - 0) + 2 * (2 ^ 2 - 0 ^ 2) / 2 + 3 * (2 ^ 3 - 0 ^ 3) / 3
      + 4 * (2 ^ 4 - 0 ^ 4) / 4).
Proof. apply (simps_point_exact_on_cubics 1 2 3 4 0 2). lra. Defined.

Lemma simps_sum_constant (C a Dx : R) (idx : list nat) (acc : R) :
  fold_left (fun s i => s + simps_term (fun _ => C) a Dx i) idx acc =
  acc + INR (length idx) * (Dx * C).
Proof.
  revert acc. induction idx as [ | i rest IH]; intros acc.
  - simpl. ring.
  - cbn [fold_left]. rewrite IH. cbn [length]. rewrite S_INR.
    unfold simps_term. field.
Qed.

(** X9: Constants are integrated exactly whatever the count: for n >= 1,
    simps of the constant C over (a, b) is |a - b| C. *)
Theorem simps_constant (C a b : R) (n : nat) (progress : bool) :
  (0 < n)%nat ->
  simps (total (fun _ => C)) a b (INR n) progress [] = Ok (Rabs (a - b) * C).
Proof.
  intros Hn. rewrite simps_total by exact Hn. f_equal.
  rewrite simps_sum_constant, length_seq.
  assert (0 < INR n) by (apply lt_0_INR; exact Hn).
  field. lra.
Qed.

Lemma simps_constant_witness :
  simps (total (fun _ => 5)) 3 1 (INR 7) false [] = Ok (Rabs (3 - 1) * 5).
Proof. apply (simps_constant 5 3 1 7 false). lia. Defined.

Lemma simps_sum_linear (alpha : R) (g h : R -> R) (a Dx : R)
  (idx : list nat) (accg acch : R) :
  fold_left (fun s i => s + simps_term (fun x => alpha * g x + h x) a Dx i)
    idx (alpha * accg + acch) =
  alpha * fold_left (fun s i => s + simps_term g a Dx i) idx accg
  + fold_left (fun s i => s + simps_term h a Dx i) idx acch.
Proof.
  revert accg acch. induction idx as [ | i rest IH]; intros accg acch.
  - reflexivity.
  - cbn [fold_left]. rewrite <- IH. f_equal. unfold simps_term. field.
Qed.

(** X10: [simps] is linear in the integrand: for total g and h and n >= 1, the
    value for alpha g + h is alpha times the value for g plus the value
    for h. *)
Theorem simps_linear (alpha : R) (g h : R -> R) (a b : R) (n : nat)
  (progress : bool) :
  (0 < n)%nat ->
  exists vg vh,
    simps (total g) a b (INR n) progress [] = Ok vg
    /\ simps (total h) a b (INR n) progress [] = Ok vh
    /\ simps (total (fun x => alpha * g x + h x)) a b (INR n) progress [] =
       Ok (alpha * vg + vh).
Proof.
  intros Hn. rewrite !simps_total by exact Hn.
  eexists. eexists. split; [reflexivity | split; [reflexivity | ]].
  f_equal. rewrite <- simps_sum_linear. f_equal. ring.
Qed.

Lemma simps_linear_witness :
  exists vg vh,
    simps (total sin) 0 1 (INR 3) false [] = Ok vg
    /\ simps (total exp) 0 1 (INR 3) false [] = Ok vh
    /\ simps (total (fun x => 2 * sin x + exp x)) 0 1 (INR 3) false [] =
       Ok (2 * vg + vh).
Proof. apply (simps_linear 2 sin exp 0 1 3 false). lia. Defined.

Lemma subinterval_count_below_one (N : R) : N < 1 -> subinterval_count N = 0%nat.
Proof.
  intros HN. unfold subinterval_count, py_range. rewrite length_seq.
  destruct (Rle_dec 0 N) as [Hpos | Hneg].
  - rewrite py_int_below_1 by lra. reflexivity.
  - unfold py_int. destruct (Rle_dec 0 N) as [H | _]; [contradiction | ].
    pose proof (base_Int_part (- N)) as [Hlo Hhi].
    assert (Hz : (0 <= Int_part (- N))%Z).
    { apply le_IZR. apply Rnot_lt_le. intros Hlt.
      assert (IZR (Int_part (- N)) <= -1).
      { apply IZR_le. apply lt_IZR in Hlt. lia. }
      lra. }
    destruct (Int_part (- N)); try reflexivity; lia.
Qed.

Lemma simps_no_subinterval (g : integrand) (a b N : R) (progress : bool)
  (params : list R) :
  N <> 0 -> N < 1 -> simps g a b N progress params = Ok 0.
Proof.
  intros Hne Hlt. rewrite simps_unfold by exact Hne.
  rewrite subinterval_count_below_one by exact Hlt. reflexivity.
Qed.

(** X11: A count below 1 means no work at all: for every integrand, even one
    that fails everywhere, [simps] returns 0 when N < 1 and N <> 0, and
    stops at the division |a - b|/N when N = 0. *)
Theorem simps_without_subintervals (g : integrand) (a b N : R)
  (progress : bool) (params : list R) :
  N < 1 ->
  (N <> 0 -> simps g a b N progress params = Ok 0)
  /\ (N = 0 -> simps g a b N progress params = Raise DivisionByZero).
Proof.
  intros Hlt. split.
  - intros Hne. apply simps_no_subinterval; assumption.
  - intros ->. unfold simps. rewrite div_by_zero by reflexivity. reflexivity.
Qed.

Lemma simps_without_subintervals_witness :
  simps (fun _ _ => Raise ValueError) 0 1 (9 / 10) true [] = Ok 0
  /\ simps (fun _ _ => Raise ValueError) 0 1 0 true [] = Raise DivisionByZero.
Proof.
  destruct (simps_without_subintervals (fun _ _ => Raise ValueError)
              0 1 (9 / 10) true []) as [Hpos _]; try lra.
  destruct (simps_without_subintervals (fun _ _ => Raise ValueError)
              0 1 0 true []) as [_ Hzero]; try lra.
  split; [apply Hpos; lra | apply Hzero; reflexivity].
Defined.

Lemma subinterval_count_at_least_one (N : R) :
  1 <= N -> exists m, subinterval_count N = S m.
Proof.
  intros HN.
  destruct (subinterval_count_floor N) as [_ Hhi]; [lra | ].
  destruct (subinterval_count N) as [ | m]; [simpl in Hhi; lra | ].
  exists m. reflexivity.
Qed.

(** X12: A failure of the integrand at the lower bound a is the failure of the
    integral: when N >= 1, the first evaluation of the loop is g(a). *)
Theorem simps_fails_at_lower_bound (g : integrand) (a b N : R)
  (progress : bool) (params : list R) (x : failure) :
  1 <= N -> g a params = Raise x ->
  simps g a b N progress params = Raise x.
Proof.
  intros HN Hg. rewrite simps_unfold by lra.
  destruct (subinterval_count_at_least_one N HN) as [m Hm]. rewrite Hm.
  cbn [seq simps_loop]. unfold simps_point.
  destruct params as [ | p0 ps]; rewrite Hg; reflexivity.
Qed.

Lemma simps_fails_at_lower_bound_witness :
  simps f_call 1 5 3 false [0; 0; 1; 1] = Raise DivisionByZero.
Proof.
  apply (simps_fails_at_lower_bound f_call 1 5 3 false [0; 0; 1; 1]
           DivisionByZero); [lra | ].
  cbn [f_call]. apply f_at_origin_below_critical; lra.
Defined.

(** X13: [F] is not even in the radius: for r < 0 (t, delta non-zero; N_p, w_0,
    c > 0) the estimate [Npts] is negative, the loop has no pass, and [F]
    returns 0 without evaluating the integrand. *)
Theorem F_zero_for_negative_radius (r t delta Np w_0 c : R)
  (progress : bool) :
  r < 0 -> t <> 0 -> delta <> 0 -> 0 < Np -> 0 < w_0 -> 0 < c ->
  exists n,
    Npts r t delta Np w_0 c = Ok n /\ n < 0
    /\ F r t delta Np w_0 c progress = Ok 0.
Proof.
  intros Hr Ht Hd HNp Hw Hc.
  pose proof (Npts_value r t delta Np w_0 c) as Hn.
  pose proof (k_0_value r t delta w_0 c) as Hb.
  set (root := sqrt (16 * PI ^ 4 * c ^ 2 / (delta ^ 2 * r ^ 2 * t ^ 2)
                     * exp (- 2 * w_0 * t) + 1)) in *.
  assert (Hroot : 0 < root).
  { apply sqrt_lt_R0.
    pose proof (estimator_radicand_pos r t delta w_0 c Hd) as Hrad.
    assert (1 <= 16 * PI ^ 4 * c ^ 2 / (delta ^ 2 * r ^ 2 * t ^ 2)
                 * exp (- 2 * w_0 * t) + 1) by (apply Hrad; lra).
    lra. }
  assert (Hneg : w_0 * r * Np / (c * PI) * root < 0).
  { assert (Hq : 0 < w_0 * (- r) * Np / (c * PI)).
    { apply Rdiv_lt_0_compat.
      - apply Rmult_lt_0_compat; [apply Rmult_lt_0_compat | ]; lra.
      - apply Rmult_lt_0_compat; [lra | exact PI_RGT_0]. }
    replace (w_0 * r * Np / (c * PI))
      with (- (w_0 * (- r) * Np / (c * PI)))
      by (field; split; [exact PI_neq_0 | lra]).
    assert (0 < w_0 * (- r) * Np / (c * PI) * root)
      by (apply Rmult_lt_0_compat; assumption).
    lra. }
  exists (w_0 * r * Np / (c * PI) * root).
  split; [apply Hn; lra | split; [exact Hneg | ]].
  unfold F. rewrite Hb, Hn by lra. cbn [bind].
  apply simps_no_subinterval; lra.
Qed.

Lemma F_zero_for_negative_radius_witness :
  exists n,
    Npts (- 1) 1 (1 / 1000) 100 1 1 = Ok n /\ n < 0
    /\ F (- 1) 1 (1 / 1000) 100 1 1 false = Ok 0.
Proof.
  apply (F_zero_for_negative_radius (- 1) 1 (1 / 1000) 100 1 1 false); lra.
Defined.

(** ** The sweeps *)

Lemma linspace_length (lo hi : R) (n : Z) (xs : list R) :
  linspace lo hi n = Ok xs -> (0 <= n)%Z /\ length xs = Z.to_nat n.
Proof.
  unfold linspace.
  destruct (n <? 0)%Z eqn:Eneg; [discriminate | ].
  apply Z.ltb_ge in Eneg.
  destruct (n =? 1)%Z eqn:Eone; intros H; injection H as <-.
  - apply Z.eqb_eq in Eone. subst n. split; [lia | reflexivity].
  - split; [exact Eneg | ]. rewrite length_map, length_seq. reflexivity.
Qed.

Lemma k_0_ok_inv (r t delta w_0 c b : R) :
  k_0 r t delta w_0 c = Ok b -> c <> 0 /\ delta <> 0 /\ r <> 0 /\ t <> 0.
Proof.
  unfold k_0, div.
  destruct (Req_dec_T c 0) as [_ | Hc]; [discriminate | ]. cbn [bind].
  destruct (Req_dec_T (delta ^ 2 * r ^ 2 * t ^ 2) 0) as [_ | Hden];
    [discriminate | ].
  intros _. repeat split; try exact Hc; intros ->; apply Hden; ring.
Qed.

Lemma Npts_ok_inv (r t delta Np w_0 c n : R) :
  Npts r t delta Np w_0 c = Ok n -> c <> 0 /\ delta <> 0 /\ r <> 0 /\ t <> 0.
Proof.
  unfold Npts, div.
  destruct (Req_dec_T (c * PI) 0) as [_ | Hc]; [discriminate | ]. cbn [bind].
  destruct (Req_dec_T (delta ^ 2 * r ^ 2 * t ^ 2) 0) as [_ | Hden];
    [discriminate | ].
  intros _. repeat split; try (intros ->; apply Hden; ring).
  intros ->. apply Hc. ring.
Qed.

Lemma F_ok_inv (r t delta Np w_0 c v : R) (progress : bool) :
  F r t delta Np w_0 c progress = Ok v ->
  c <> 0 /\ delta <> 0 /\ r <> 0 /\ t <> 0.
Proof.
  unfold F. destruct (k_0 r t delta w_0 c) as [b | x] eqn:Hb;
    [ | discriminate].
  intros _. apply (k_0_ok_inv _ _ _ _ _ _ Hb).
Qed.

Lemma slice_of_unique (t delta Np w_0 c : R) (Rs row1 row2 : list R) :
  slice_of t delta Np w_0 c Rs row1 -> slice_of t delta Np w_0 c Rs row2 ->
  row1 = row2.
Proof.
  unfold slice_of. intros H1. revert row2.
  induction H1 as [ | r v Rs' row1' Hv _ IH]; intros row2 H2.
  - inversion H2. reflexivity.
  - inversion H2 as [ | r' v' Rs'' row2' Hv' Hrest]; subst.
    rewrite Hv in Hv'. injection Hv' as <-. f_equal. apply IH. exact Hrest.
Qed.

Lemma slice_of_length (t delta Np w_0 c : R) (Rs row : list R) :
  slice_of t delta Np w_0 c Rs row -> length row = length Rs.
Proof.
  unfold slice_of. intros H. symmetry. apply (Forall2_length H).
Qed.

Lemma F_slice_loop_spec (t delta Np w_0 c : R) (Rs grid a : list R) :
  F_slice_loop t delta Np w_0 c Rs grid = Ok a ->
  exists vs, a = grid ++ vs /\ slice_of t delta Np w_0 c Rs vs.
Proof.
  revert grid. induction Rs as [ | r rest IH]; intros grid H.
  - injection H as <-. exists []. split; [symmetry; apply app_nil_r | ].
    constructor.
  - cbn [F_slice_loop] in H.
    destruct (F r t delta Np w_0 c false) as [v | x] eqn:Hv; cbn [bind] in H;
      [ | discriminate].
    destruct (IH _ H) as [vs [Ha Hvs]].
    exists (v :: vs). split.
    + rewrite Ha, <- app_assoc. reflexivity.
    + constructor; assumption.
Qed.

(** X14: A returned radius sweep has one entry per requested radius: when
    [F_slice] returns the array a, then Nr >= 1, a has exactly Nr entries,
    and entry i is [F] at the i-th point of np.linspace(r_min, r_max, Nr). *)
Theorem F_slice_entries (G : globals) (r_min r_max : R) (Nr : Z)
  (t delta Np w_0 c : R) (progress : bool) (a : list R) :
  result (F_slice G r_min r_max Nr t delta Np w_0 c progress) = Ok a ->
  (1 <= Nr)%Z /\ length a = Z.to_nat Nr
  /\ exists Rs,
       linspace r_min r_max Nr = Ok Rs /\ slice_of t delta Np w_0 c Rs a.
Proof.
  intros H.
  pose proof (F_slice_returned_array _ _ _ _ _ _ _ _ _ _ _ H) as Harr.
  assert (Hnz : Nr <> 0%Z).
  { unfold F_slice in H.
    destruct (F_slice_report G r_min r_max Nr t delta Np w_0 c)
      as [printed | x] eqn:Hrep; cbn [result] in H; [ | discriminate].
    unfold F_slice_report in Hrep.
    destruct (read_global (Nt G)); cbn [bind] in Hrep; [ | discriminate].
    unfold div at 1 in Hrep.
    destruct (Req_dec_T (IZR Nr) 0) as [_ | Hne]; [discriminate | ].
    intros ->. apply Hne. reflexivity. }
  destruct (linspace r_min r_max Nr) as [Rs | x] eqn:HRs; cbn [bind] in Harr;
    [ | discriminate].
  destruct (linspace_length _ _ _ _ HRs) as [Hpos Hlen].
  destruct (F_slice_loop_spec _ _ _ _ _ _ _ _ Harr) as [vs [Ha Hvs]].
  cbn [app] in Ha. subst vs.
  split; [lia | split].
  - rewrite (slice_of_length _ _ _ _ _ _ _ Hvs). exact Hlen.
  - exists Rs. split; [reflexivity | exact Hvs].
Qed.

Lemma F_slice_entries_witness :
  (1 <= 1)%Z /\ length [0] = Z.to_nat 1
  /\ exists Rs, linspace 1 1 1 = Ok Rs /\ slice_of 100 (1 / 2) 1 1 1 Rs [0].
Proof.
  apply (F_slice_entries
           {| t_min := Some 0; t_max := Some 1; Nt := Some 5%Z |}
           1 1 1 100 (1 / 2) 1 1 1 true [0]).
  apply F_slice_example. lia.
Defined.

(** X15: [F_slice] cannot be asked for a sweep that touches a degenerate value:
    with [Nt] bound, if Nr = 0, r_min = 0, r_max = 0, t = 0, delta = 0 or
    c = 0, the call stops at a division by zero while the report is being
    assembled, before anything is printed. *)
Theorem F_slice_degenerate (G : globals) (nt : Z) (r_min r_max : R) (Nr : Z)
  (t delta Np w_0 c : R) (progress : bool) :
  Nt G = Some nt ->
  Nr = 0%Z \/ r_min = 0 \/ r_max = 0 \/ t = 0 \/ delta = 0 \/ c = 0 ->
  F_slice G r_min r_max Nr t delta Np w_0 c progress =
  {| stdout := []; result := Raise DivisionByZero |}.
Proof.
  intros HNt Hdeg.
  assert (Hrep : F_slice_report G r_min r_max Nr t delta Np w_0 c =
                 Raise DivisionByZero).
  { unfold F_slice_report. rewrite HNt. cbn [read_global bind].
    unfold div at 1.
    destruct (Req_dec_T (IZR Nr) 0) as [_ | HNr]; [reflexivity | ].
    cbn [bind]. unfold div at 1.
    destruct (Req_dec_T c 0) as [_ | Hc]; [reflexivity | ]. cbn [bind].
    destruct (k_0_cases r_min t delta w_0 c) as [[b1 Hb1] | Hb1];
      rewrite Hb1; cbn [bind]; [ | reflexivity].
    destruct (k_0_cases r_max t delta w_0 c) as [[b2 Hb2] | Hb2];
      rewrite Hb2; cbn [bind]; [ | reflexivity].
    exfalso.
    destruct (k_0_ok_inv _ _ _ _ _ _ Hb1) as [_ [Hd [Hr1 Ht]]].
    destruct (k_0_ok_inv _ _ _ _ _ _ Hb2) as [_ [_ [Hr2 _]]].
    destruct Hdeg as [H | [H | [H | [H | [H | H]]]]];
      try contradiction.
    subst Nr. apply HNr. reflexivity. }
  unfold F_slice. rewrite Hrep. reflexivity.
Qed.

Lemma F_slice_degenerate_witness :
  F_slice {| t_min := Some 0; t_max := Some 1; Nt := Some 5%Z |}
    0 1 10 1 (1 / 1000) 100 1 1 true =
  {| stdout := []; result := Raise DivisionByZero |}.
Proof.
  apply (F_slice_degenerate
           {| t_min := Some 0; t_max := Some 1; Nt := Some 5%Z |} 5
           0 1 10 1 (1 / 1000) 100 1 1 true).
  - reflexivity.
  - right. left. reflexivity.
Defined.

Lemma F_range_inner_spec (t delta Np w_0 c : R) (Rs : list R)
  (front : matrix) (row : list R) (g : matrix) :
  F_range_inner t delta Np w_0 c Rs (front ++ [row]) = OkIx g ->
  exists vs, g = front ++ [row ++ vs] /\ slice_of t delta Np w_0 c Rs vs.
Proof.
  revert row. induction Rs as [ | r rest IH]; intros row H.
  - injection H as <-. exists []. rewrite app_nil_r.
    split; [reflexivity | constructor].
  - cbn [F_range_inner] in H. rewrite rev_app_distr in H. cbn [rev app] in H.
    destruct (F r t delta Np w_0 c false) as [v | x] eqn:Hv;
      cbn [lift bind_ix] in H; [ | discriminate].
    rewrite rev_involutive in H.
    destruct (IH _ H) as [vs [Hg Hvs]].
    exists (v :: vs). split.
    + rewrite Hg, <- app_assoc. reflexivity.
    + constructor; assumption.
Qed.

Lemma F_range_outer_spec (delta Np w_0 c : R) (Ts Rs : list R)
  (grid g : matrix) :
  F_range_outer delta Np w_0 c Ts Rs grid = OkIx g ->
  exists rows,
    g = grid ++ rows
    /\ Forall2 (fun t row => slice_of t delta Np w_0 c Rs row) Ts rows.
Proof.
  revert grid. induction Ts as [ | t rest IH]; intros grid H.
  - injection H as <-. exists []. rewrite app_nil_r.
    split; [reflexivity | constructor].
  - cbn [F_range_outer] in H.
    destruct (F_range_inner t delta Np w_0 c Rs (grid ++ [[]]))
      as [grid' | x] eqn:Hin; cbn [bind_ix] in H; [ | discriminate].
    destruct (F_range_inner_spec _ _ _ _ _ _ _ _ _ Hin) as [vs [Hg' Hvs]].
    cbn [app] in Hg'.
    destruct (IH _ H) as [rows [Hg Hrows]].
    exists (vs :: rows). split.
    + rewrite Hg, Hg', <- app_assoc. reflexivity.
    + constructor; assumption.
Qed.

Lemma F_range_returned_grid (r_min r_max : R) (Nr : Z) (t_min t_max : R)
  (Nt : Z) (delta Np w_0 c : R) (progress : bool) (grid : matrix) :
  snd (F_range r_min r_max Nr t_min t_max Nt delta Np w_0 c progress) =
  OkIx grid ->
  exists Rs Ts,
    linspace r_min r_max Nr = Ok Rs /\ linspace t_min t_max Nt = Ok Ts
    /\ Nr <> 0%Z /\ Nt <> 0%Z
    /\ Forall2 (fun t row => slice_of t delta Np w_0 c Rs row) Ts grid.
Proof.
  unfold F_range.
  destruct (F_range_report r_min r_max Nr t_min t_max Nt delta Np w_0 c)
    as [printed | x] eqn:Hrep; cbn [snd]; [ | discriminate].
  assert (Hnz : Nr <> 0%Z /\ Nt <> 0%Z).
  { unfold F_range_report in Hrep. unfold div at 1 in Hrep.
    destruct (Req_dec_T (IZR Nt) 0) as [_ | HNt]; [discriminate | ].
    cbn [bind] in Hrep. unfold div at 1 in Hrep.
    destruct (Req_dec_T (IZR Nr) 0) as [_ | HNr]; [discriminate | ].
    split; intros ->; [apply HNr | apply HNt]; reflexivity. }
  destruct (linspace r_min r_max Nr) as [Rs | x]; cbn [lift bind_ix];
    [ | discriminate].
  destruct (linspace t_min t_max Nt) as [Ts | x]; cbn [lift bind_ix];
    [ | discriminate].
  unfold tqdm. intros H.
  assert (Hout : F_range_outer delta Np w_0 c Ts Rs [] = OkIx grid)
    by (destruct progress; exact H).
  destruct (F_range_outer_spec _ _ _ _ _ _ _ _ Hout) as [rows [Hg Hrows]].
  cbn [app] in Hg. subst rows.
  exists Rs, Ts. destruct Hnz as [HNr HNt].
  repeat split; try reflexivity; assumption.
Qed.

(** X16: Grid shape: when [F_range] returns a grid, Nr >= 1 and Nt >= 1, the
    grid has exactly Nt rows (one per time) and every row has exactly Nr
    values (one per radius). *)
Theorem F_range_shape (r_min r_max : R) (Nr : Z) (t_min t_max : R)
  (Nt : Z) (delta Np w_0 c : R) (progress : bool) (grid : matrix) :
  snd (F_range r_min r_max Nr t_min t_max Nt delta Np w_0 c progress) =
  OkIx grid ->
  (1 <= Nr)%Z /\ (1 <= Nt)%Z /\ length grid = Z.to_nat Nt
  /\ Forall (fun row => length row = Z.to_nat Nr) grid.
Proof.
  intros H.
  destruct (F_range_returned_grid _ _ _ _ _ _ _ _ _ _ _ _ H)
    as [Rs [Ts [HRs [HTs [HNr [HNt Hrows]]]]]].
  destruct (linspace_length _ _ _ _ HRs) as [HposR HlenR].
  destruct (linspace_length _ _ _ _ HTs) as [HposT HlenT].
  split; [lia | split; [lia | split]].
  - rewrite <- (Forall2_length Hrows). exact HlenT.
  - clear H HTs HlenT. induction Hrows as [ | t row Ts' rows' Hrow _ IH].
    + constructor.
    + constructor; [ | exact IH].
      rewrite (slice_of_length _ _ _ _ _ _ _ Hrow). exact HlenR.
Qed.

(** X17: [F_range] is a stack of [F_slice] results: when it returns a grid, the
    row for the j-th time t_j of np.linspace(t_min, t_max, Nt) is the array
    that any returning call [F_slice(r_min, r_max, Nr, t_j, ...)] returns. *)
Theorem F_range_rows_are_slices (r_min r_max : R) (Nr : Z) (t_min t_max : R)
  (Nt : Z) (delta Np w_0 c : R) (progress : bool) (grid : matrix) :
  snd (F_range r_min r_max Nr t_min t_max Nt delta Np w_0 c progress) =
  OkIx grid ->
  exists Ts,
    linspace t_min t_max Nt = Ok Ts
    /\ Forall2
         (fun t row =>
            forall G progress' a,
              result (F_slice G r_min r_max Nr t delta Np w_0 c progress') =
              Ok a ->
              a = row)
         Ts grid.
Proof.
  intros H.
  destruct (F_range_returned_grid _ _ _ _ _ _ _ _ _ _ _ _ H)
    as [Rs [Ts [HRs [HTs [_ [_ Hrows]]]]]].
  exists Ts. split; [exact HTs | ].
  clear H HTs. induction Hrows as [ | t row Ts' rows' Hrow _ IH].
  - constructor.
  - constructor; [ | exact IH].
    intros G progress' a Ha.
    apply F_slice_returned_array in Ha. rewrite HRs in Ha. cbn [bind] in Ha.
    destruct (F_slice_loop_spec _ _ _ _ _ _ _ _ Ha) as [vs [Hvs Hslice]].
    cbn [app] in Hvs. subst vs.
    apply (slice_of_unique _ _ _ _ _ _ _ _ Hslice Hrow).
Qed.

(** A sweep of one radius and one time whose integral has no subinterval. *)
Lemma F_range_example :
  snd (F_range 1 1 1 100 100 1 (1 / 2) 1 1 1 true) = OkIx [[0]].
Proof.
  destruct Npts_small_example as [n [Hn _]].
  pose proof (F_small_example false) as HF.
  assert (Hk : exists b, k_0 1 100 (1 / 2) 1 1 = Ok b)
    by (eexists; apply k_0_value; lra).
  destruct Hk as [b Hb].
  unfold F_range, F_range_report.
  rewrite !(div_ok _ (IZR 1)) by lra. cbn [bind].
  rewrite Hb, Hn. cbn [bind snd].
  unfold linspace. cbn [Z.ltb Z.eqb Z.compare Pos.compare Pos.eqb lift bind_ix].
  unfold tqdm. cbn [F_range_outer F_range_inner app rev].
  rewrite HF. reflexivity.
Qed.

Lemma F_range_shape_witness :
  (1 <= 1)%Z /\ (1 <= 1)%Z /\ length [[0]] = Z.to_nat 1
  /\ Forall (fun row => length row = Z.to_nat 1) [[0]].
Proof.
  apply (F_range_shape 1 1 1 100 100 1 (1 / 2) 1 1 1 true [[0]]).
  exact F_range_example.
Defined.

Lemma F_range_rows_are_slices_witness :
  exists Ts,
    linspace 100 100 1 = Ok Ts
    /\ Forall2
         (fun t row =>
            forall G progress' a,
              result (F_slice G 1 1 1 t (1 / 2) 1 1 1 progress') = Ok a ->
              a = row)
         Ts [[0]].
Proof.
  apply (F_range_rows_are_slices 1 1 1 100 100 1 (1 / 2) 1 1 1 true [[0]]).
  exact F_range_example.
Defined.

(** X18: [F_range] cannot sweep through a degenerate value: if Nr = 0, Nt = 0,
    r_min = 0, r_max = 0, t_min = 0, t_max = 0, delta = 0 or c = 0, the call
    stops at a division by zero while the report is being assembled; nothing
    is printed and no grid point is computed. *)
Theorem F_range_degenerate (r_min r_max : R) (Nr : Z) (t_min t_max : R)
  (Nt : Z) (delta Np w_0 c : R) (progress : bool) :
  Nr = 0%Z \/ Nt = 0%Z \/ r_min = 0 \/ r_max = 0 \/ t_min = 0 \/ t_max = 0
  \/ delta = 0 \/ c = 0 ->
  F_range r_min r_max Nr t_min t_max Nt delta Np w_0 c progress =
  ([], RaiseIx (Plain DivisionByZero)).
Proof.
  intros Hdeg.
  assert (Hrep : F_range_report r_min r_max Nr t_min t_max Nt delta Np w_0 c
                 = Raise DivisionByZero).
  { unfold F_range_report. unfold div at 1.
    destruct (Req_dec_T (IZR Nt) 0) as [_ | HNt]; [reflexivity | ].
    cbn [bind]. unfold div at 1.
    destruct (Req_dec_T (IZR Nr) 0) as [_ | HNr]; [reflexivity | ].
    cbn [bind]. unfold div at 1.
    destruct (Req_dec_T c 0) as [_ | Hc]; [reflexivity | ]. cbn [bind].
    destruct (k_0_cases r_min t_min delta w_0 c) as [[b1 Hb1] | Hb1];
      rewrite Hb1; cbn [bind]; [ | reflexivity].
    destruct (k_0_cases r_max t_min delta w_0 c) as [[b2 Hb2] | Hb2];
      rewrite Hb2; cbn [bind]; [ | reflexivity].
    destruct (Npts_cases r_min t_max delta Np w_0 c) as [[n1 Hn1] | Hn1];
      rewrite Hn1; cbn [bind]; [ | reflexivity].
    exfalso.
    destruct (k_0_ok_inv _ _ _ _ _ _ Hb1) as [_ [Hd [Hr1 Ht1]]].
    destruct (k_0_ok_inv _ _ _ _ _ _ Hb2) as [_ [_ [Hr2 _]]].
    destruct (Npts_ok_inv _ _ _ _ _ _ _ Hn1) as [_ [_ [_ Ht2]]].
    destruct Hdeg as [H | [H | [H | [H | [H | [H | [H | H]]]]]]];
      try contradiction.
    - subst Nr. apply HNr. reflexivity.
    - subst Nt. apply HNt. reflexivity. }
  unfold F_range. rewrite Hrep. reflexivity.
Qed.

Lemma F_range_degenerate_witness :
  F_range (1 / 10) 1 10 0 1 10 (1 / 1000) 100 1 1 true =
  ([], RaiseIx (Plain DivisionByZero)).
Proof.
  apply (F_range_degenerate (1 / 10) 1 10 0 1 10 (1 / 1000) 100 1 1 true).
  do 4 right. left. reflexivity.
Defined.

Lemma Forall2_nth_error_r {A B : Type} (P : A -> B -> Prop)
  (xs : list A) (ys : list B) (j : nat) (y : B) :
  Forall2 P xs ys -> nth_error ys j = Some y ->
  exists x, nth_error xs j = Some x /\ P x y.
Proof.
  intros H. revert j. induction H as [ | x0 y0 xs' ys' Hxy _ IH]; intros j Hj.
  - destruct j; discriminate.
  - destruct j as [ | j'].
    + injection Hj as <-. exists x0. split; [reflexivity | exact Hxy].
    + apply IH. exact Hj.
Qed.

(** X19: The surface plotted from [get_meshgrid] and [F_range] is consistent:
    when both return for the same ranges, every value zz[j][i] of the grid
    is [F] at the radius rr[j][i] and the time tt[j][i] of the mesh. *)
Theorem meshgrid_matches_F_range (r_min r_max : R) (Nr : Z)
  (t_min t_max : R) (Nt : Z) (delta Np w_0 c : R) (progress : bool)
  (rr tt zz : matrix) :
  get_meshgrid r_min r_max Nr t_min t_max Nt = Ok (rr, tt) ->
  snd (F_range r_min r_max Nr t_min t_max Nt delta Np w_0 c progress) =
  OkIx zz ->
  forall j i v,
    entry zz j i = Some v ->
    exists r t,
      entry rr j i = Some r /\ entry tt j i = Some t
      /\ F r t delta Np w_0 c false = Ok v.
Proof.
  intros Hmesh Hgrid j i v Hv.
  destruct (F_range_returned_grid _ _ _ _ _ _ _ _ _ _ _ _ Hgrid)
    as [Rs [Ts [HRs [HTs [_ [_ Hrows]]]]]].
  unfold get_meshgrid in Hmesh. rewrite HRs, HTs in Hmesh.
  cbn [bind] in Hmesh. unfold meshgrid in Hmesh.
  injection Hmesh as <- <-.
  unfold entry in Hv.
  destruct (nth_error zz j) as [row | ] eqn:Hrow; [ | discriminate].
  destruct (Forall2_nth_error_r _ _ _ _ _ Hrows Hrow) as [t [Ht Hslice]].
  destruct (Forall2_nth_error_r _ _ _ _ _ Hslice Hv) as [r [Hr HF]].
  exists r, t. unfold entry.
  rewrite !nth_error_map, Ht. cbn [option_map].
  rewrite nth_error_map, Hr. cbn [option_map].
  split; [reflexivity | split; [reflexivity | exact HF]].
Qed.

Lemma meshgrid_matches_F_range_witness :
  exists r t,
    entry [[1]] 0 0 = Some r /\ entry [[100]] 0 0 = Some t
    /\ F r t (1 / 2) 1 1 1 false = Ok 0.
Proof.
  apply (meshgrid_matches_F_range 1 1 1 100 100 1 (1 / 2) 1 1 1 true
           [[1]] [[100]] [[0]]).
  - reflexivity.
  - exact F_range_example.
  - reflexivity.
Defined.

(** ** The plotted curves *)

Lemma envelope_pointwise (k r t : R) :
  0 < r -> 0 < t ->
  exists vf ve, f k r t 1 1 = Ok vf /\ e 1 1 k r t = Ok ve /\ Rabs vf <= ve.
Proof.
  intros Hr Ht.
  destruct (Rle_dec k 0) as [Hk | Hk].
  - exists 0, 0. unfold f, e.
    destruct (Rlt_dec t 0) as [_ | _];
      [repeat split; try reflexivity; rewrite Rabs_R0; lra | ].
    destruct (Rle_dec k 0) as [_ | N]; [ | contradiction].
    repeat split; try reflexivity. rewrite Rabs_R0. lra.
  - destruct (Rtotal_order k (2 * 1 / 1)) as [Hlt | [Heq | Hgt]].
    + apply envelope_below_critical; lra.
    + subst k. exists 0, 0.
      destruct (integrand_zero_at_critical_aux r t 1 1) as [Hf He]; [lra | ].
      repeat split; try assumption. rewrite Rabs_R0. lra.
    + apply envelope_above_critical; lra.
Qed.

(** X20: The two curves of the envelope plot: with the module constants
    w_0 = c = 1 of the notebook, r > 0 and t > 0, [f_vect] and [e_vect]
    return for every list K of wavenumbers (zero, negative and critical ones
    included) two arrays as long as K, and at every sample the envelope is
    at least the absolute value of the integrand. *)
Theorem envelope_curve_dominates (K : list R) (r t : R) :
  0 < r -> 0 < t ->
  exists fs es,
    f_vect K r t = Ok fs /\ e_vect 1 1 K r t = Ok es
    /\ length fs = length K
    /\ Forall2 (fun vf ve => Rabs vf <= ve) fs es.
Proof.
  intros Hr Ht. unfold f_vect, e_vect.
  induction K as [ | k rest IH].
  - exists [], []. repeat split; constructor.
  - destruct IH as [fs [es [Hfs [Hes [Hlen Hdom]]]]].
    destruct (envelope_pointwise k r t Hr Ht) as [vf [ve [Hf [He Hle]]]].
    exists (vf :: fs), (ve :: es).
    cbn [comprehension]. rewrite Hf, He, Hfs, Hes. cbn [bind].
    repeat split; try reflexivity.
    + cbn [length]. rewrite Hlen. reflexivity.
    + constructor; assumption.
Qed.

Lemma envelope_curve_dominates_witness :
  exists fs es,
    f_vect [0; 1; 2; 3] 1 1 = Ok fs /\ e_vect 1 1 [0; 1; 2; 3] 1 1 = Ok es
    /\ length fs = length [0; 1; 2; 3]
    /\ Forall2 (fun vf ve => Rabs vf <= ve) fs es.
Proof. apply (envelope_curve_dominates [0; 1; 2; 3] 1 1); lra. Defined.



(** * The heat distribution notebook *)

Lemma np_dot_self_nonneg (x : point) : 0 <= np_dot_self x.
Proof.
  destruct x as [x | xs]; cbn [np_dot_self].
  - nra.
  - induction xs as [ | v rest IH]; cbn [map fold_right]; [lra | nra].
Qed.

(** X22: For widths s_x > 0 and s_t > 0 the distribution is a positive real
    number at every point and time, never above 1/(4 pi^2 s_x^3 s_t), and
    it takes that value at the origin x = 0, t = 0. *)
Theorem G_peak_at_origin (x : point) (t s_x s_t : R) :
  0 < s_x -> 0 < s_t ->
  (exists v,
     G x t s_x s_t = Ok v /\ 0 < v <= 1 / (4 * PI ^ 2 * s_x ^ 3 * s_t))
  /\ G (Scalar 0) 0 s_x s_t = Ok (1 / (4 * PI ^ 2 * s_x ^ 3 * s_t)).
Proof.
  intros Hx Ht.
  assert (Hden : 0 < 4 * PI ^ 2 * s_x ^ 3 * s_t).
  { assert (0 < PI ^ 2) by (apply pow_lt; exact PI_RGT_0).
    assert (0 < s_x ^ 3) by (apply pow_lt; exact Hx).
    apply Rmult_lt_0_compat; [ | exact Ht].
    apply Rmult_lt_0_compat; [ | assumption].
    apply Rmult_lt_0_compat; lra. }
  assert (Hsx : 0 < 2 * s_x ^ 2)
    by (assert (0 < s_x ^ 2) by (apply pow_lt; exact Hx); lra).
  assert (Hst : 0 < 2 * s_t ^ 2)
    by (assert (0 < s_t ^ 2) by (apply pow_lt; exact Ht); lra).
  assert (Hn : 0 < 1 / (4 * PI ^ 2 * s_x ^ 3 * s_t))
    by (apply Rdiv_lt_0_compat; lra).
  assert (Hexp : forall y d, 0 <= y -> 0 < d -> 0 < exp (- y / d) <= 1).
  { intros y d Hy Hd. split; [apply exp_pos | ].
    destruct (Req_dec_T y 0) as [-> | Hne].
    - replace (- 0 / d) with 0 by (field; lra). rewrite exp_0. lra.
    - left. apply exp_neg_lt_1.
      assert (0 < y / d) by (apply Rdiv_lt_0_compat; lra).
      replace (- y / d) with (- (y / d)) by (field; lra). lra. }
  split.
  - unfold G. rewrite !div_ok by lra. cbn [bind].
    eexists. split; [reflexivity | ].
    pose proof (Hexp (np_dot_self x) (2 * s_x ^ 2) (np_dot_self_nonneg x) Hsx)
      as Ha.
    pose proof (Hexp (t ^ 2) (2 * s_t ^ 2) (pow2_ge_0 t) Hst) as Hb.
    split.
    + apply Rmult_lt_0_compat; [apply Rmult_lt_0_compat | ]; lra.
    + assert (exp (- np_dot_self x / (2 * s_x ^ 2))
              * exp (- t ^ 2 / (2 * s_t ^ 2)) <= 1) by nra.
      rewrite Rmult_assoc.
      rewrite <- (Rmult_1_r (1 / (4 * PI ^ 2 * s_x ^ 3 * s_t))) at 2.
      apply Rmult_le_compat_l; lra.
  - unfold G. rewrite !div_ok by lra. cbn [bind np_dot_self]. f_equal.
    replace (- (0 * 0) / (2 * s_x ^ 2)) with 0 by (field; lra).
    replace (- 0 ^ 2 / (2 * s_t ^ 2)) with 0 by (field; lra).
    rewrite exp_0. ring.
Qed.

Lemma G_peak_at_origin_witness :
  (exists v,
     G (Vector [1; 2; 3]) 5 2 3 = Ok v
     /\ 0 < v <= 1 / (4 * PI ^ 2 * 2 ^ 3 * 3))
  /\ G (Scalar 0) 0 2 3 = Ok (1 / (4 * PI ^ 2 * 2 ^ 3 * 3)).
Proof. apply (G_peak_at_origin (Vector [1; 2; 3]) 5 2 3); lra. Defined.

(** The distribution is even in position and in time, and it has no value
    when a width is zero: G(-x, -t) = G(x, t) for all arguments, and
    s_x = 0 or s_t = 0 ends in a division by zero. *)
Lemma G_even_and_degenerate (x t s_x s_t : R) :
  G (Scalar (- x)) (- t) s_x s_t = G (Scalar x) t s_x s_t
  /\ (s_x = 0 \/ s_t = 0 -> G (Scalar x) t s_x s_t = Raise DivisionByZero).
Proof.
  split.
  - unfold G. cbn [np_dot_self].
    replace (- x * - x) with (x * x) by ring.
    replace ((- t) ^ 2) with (t ^ 2) by ring.
    reflexivity.
  - intros Hz. unfold G.
    rewrite div_by_zero; [reflexivity | ].
    destruct Hz as [-> | ->]; ring.
Qed.

(** ** [mesh_wrapper] *)

Lemma set_nth_length {A : Type} (l : list A) (n : nat) (v : A) :
  length (set_nth l n v) = length l.
Proof.
  revert n. induction l as [ | h rest IH]; intros n; [reflexivity | ].
  destruct n; cbn [set_nth length]; [reflexivity | rewrite IH; reflexivity].
Qed.

Lemma nth_error_set_nth_same {A : Type} (l : list A) (n : nat) (v : A) :
  (n < length l)%nat -> nth_error (set_nth l n v) n = Some v.
Proof.
  revert n. induction l as [ | h rest IH]; intros n Hn; cbn [length] in Hn;
    [lia | ].
  destruct n; cbn [set_nth nth_error]; [reflexivity | apply IH; lia].
Qed.

Lemma nth_error_set_nth_other {A : Type} (l : list A) (n m : nat) (v : A) :
  m <> n -> nth_error (set_nth l n v) m = nth_error l m.
Proof.
  revert n m. induction l as [ | h rest IH]; intros n m Hne; [reflexivity | ].
  destruct n, m; cbn [set_nth nth_error]; try reflexivity; try lia.
  apply IH. lia.
Qed.

Lemma has_shape_zeros (rows cols : nat) : has_shape (np_zeros rows cols) rows cols.
Proof.
  unfold has_shape, np_zeros. split; [apply repeat_length | ].
  apply Forall_forall. intros row Hin. apply repeat_spec in Hin. subst row.
  apply repeat_length.
Qed.

Lemma has_shape_row (z : matrix) (rows cols j : nat) :
  has_shape z rows cols -> (j < rows)%nat ->
  exists row, nth_error z j = Some row /\ length row = cols.
Proof.
  intros [Hlen Hall] Hj.
  destruct (nth_error z j) as [row | ] eqn:Hrow.
  - exists row. split; [reflexivity | ].
    apply nth_error_In in Hrow.
    rewrite Forall_forall in Hall. apply Hall. exact Hrow.
  - apply nth_error_None in Hrow. lia.
Qed.

Lemma set_item_ok (z : matrix) (rows cols j i : nat) (v : R) :
  has_shape z rows cols -> (j < rows)%nat -> (i < cols)%nat ->
  exists z',
    set_item z j i v = OkIx z' /\ has_shape z' rows cols
    /\ entry z' j i = Some v
    /\ forall j' i', j' <> j \/ i' <> i -> entry z' j' i' = entry z j' i'.
Proof.
  intros Hshape Hj Hi.
  destruct (has_shape_row z rows cols j Hshape Hj) as [row [Hrow Hlen]].
  unfold set_item. rewrite Hrow.
  assert (Hlt : (i <? length row)%nat = true) by (apply Nat.ltb_lt; lia).
  rewrite Hlt. eexists. split; [reflexivity | ].
  destruct Hshape as [Hrows Hall].
  split; [ | split].
  - split; [rewrite set_nth_length; exact Hrows | ].
    apply Forall_forall. intros row' Hin.
    apply In_nth_error in Hin. destruct Hin as [m Hm].
    destruct (Nat.eq_dec m j) as [-> | Hne].
    + rewrite nth_error_set_nth_same in Hm by lia. injection Hm as <-.
      rewrite set_nth_length. exact Hlen.
    + rewrite nth_error_set_nth_other in Hm by exact Hne.
      apply nth_error_In in Hm. rewrite Forall_forall in Hall.
      apply Hall. exact Hm.
  - unfold entry. rewrite nth_error_set_nth_same by lia.
    apply nth_error_set_nth_same. lia.
  - intros j' i' Hne. unfold entry.
    destruct (Nat.eq_dec j' j) as [-> | Hj'].
    + rewrite nth_error_set_nth_same by lia. rewrite Hrow.
      apply nth_error_set_nth_other. destruct Hne as [H | H]; [contradiction | exact H].
    + rewrite nth_error_set_nth_other by exact Hj'. reflexivity.
Qed.

Lemma set_item_row_out_of_range (z : matrix) (rows cols j i : nat) (v : R) :
  has_shape z rows cols -> (rows <= j)%nat ->
  set_item z j i v = RaiseIx IndexError.
Proof.
  intros [Hlen _] Hj. unfold set_item.
  assert (Hnone : nth_error z j = None) by (apply nth_error_None; lia).
  rewrite Hnone. reflexivity.
Qed.

Lemma set_item_column_out_of_range (z : matrix) (rows cols j i : nat) (v : R) :
  has_shape z rows cols -> (j < rows)%nat -> (cols <= i)%nat ->
  set_item z j i v = RaiseIx IndexError.
Proof.
  intros Hshape Hj Hi.
  destruct (has_shape_row z rows cols j Hshape Hj) as [row [Hrow Hlen]].
  unfold set_item. rewrite Hrow.
  assert (Hge : (i <? length row)%nat = false) by (apply Nat.ltb_ge; lia).
  rewrite Hge. reflexivity.
Qed.

Section MeshWrapper.

Variable g : mesh_function.
Variable params : list R.
Variable h : R -> R -> R.
Hypothesis g_total : forall x t, g x t params = Ok (h x t).

Lemma mesh_inner_ok (xi : R) (i rows cols : nat) (Ts : list R) :
  forall (j0 : nat) (z : matrix),
    has_shape z rows cols -> (i < cols)%nat ->
    (j0 + length Ts <= rows)%nat ->
    exists z',
      mesh_inner g params xi i Ts j0 z = OkIx z' /\ has_shape z' rows cols
      /\ (forall k t, nth_error Ts k = Some t ->
                      entry z' (j0 + k) i = Some (h xi t))
      /\ (forall j' i', i' <> i \/ (j' < j0)%nat ->
                        entry z' j' i' = entry z j' i').
Proof.
  induction Ts as [ | tj rest IH]; intros j0 z Hshape Hi Hj.
  - exists z. split; [reflexivity | split; [exact Hshape | split]].
    + intros k t Hk. destruct k; discriminate.
    + reflexivity.
  - cbn [length] in Hj. cbn [mesh_inner]. rewrite g_total. cbn [lift bind_ix].
    destruct (set_item_ok z rows cols j0 i (h xi tj) Hshape)
      as [z1 [Hset [Hshape1 [Hhere Hother]]]]; [lia | exact Hi | ].
    rewrite Hset. cbn [bind_ix].
    destruct (IH (S j0) z1 Hshape1 Hi) as [z' [Hrun [Hshape' [Hnew Hold]]]];
      [lia | ].
    exists z'. split; [exact Hrun | split; [exact Hshape' | split]].
    + intros k t Hk. destruct k as [ | k'].
      * injection Hk as <-. rewrite Nat.add_0_r.
        rewrite Hold by (right; lia). exact Hhere.
      * rewrite <- Nat.add_succ_comm. apply Hnew. exact Hk.
    + intros j' i' Hne. rewrite Hold by (destruct Hne; [left | right]; lia || assumption).
      apply Hother. destruct Hne as [H | H]; [right; exact H | left; lia].
Qed.

Lemma mesh_inner_row_out_of_range (xi : R) (i rows cols : nat)
  (Ts : list R) :
  forall (j0 : nat) (z : matrix),
    has_shape z rows cols -> (i < cols)%nat -> (j0 <= rows)%nat ->
    (rows < j0 + length Ts)%nat ->
    mesh_inner g params xi i Ts j0 z = RaiseIx IndexError.
Proof.
  induction Ts as [ | tj rest IH]; intros j0 z Hshape Hi Hlo Hhi.
  - cbn [length] in Hhi. lia.
  - cbn [length] in Hhi. cbn [mesh_inner]. rewrite g_total.
    cbn [lift bind_ix].
    destruct (Nat.eq_dec j0 rows) as [-> | Hne].
    + rewrite (set_item_row_out_of_range z rows cols) by (assumption || lia).
      reflexivity.
    + destruct (set_item_ok z rows cols j0 i (h xi tj) Hshape)
        as [z1 [Hset [Hshape1 _]]]; [lia | exact Hi | ].
      rewrite Hset. cbn [bind_ix]. apply IH; try assumption; lia.
Qed.

Lemma mesh_inner_column_out_of_range (xi : R) (i rows cols : nat)
  (tj : R) (rest : list R) (z : matrix) :
  has_shape z rows cols -> (0 < rows)%nat -> (cols <= i)%nat ->
  mesh_inner g params xi i (tj :: rest) 0 z = RaiseIx IndexError.
Proof.
  intros Hshape Hrows Hi. cbn [mesh_inner]. rewrite g_total.
  cbn [lift bind_ix].
  rewrite (set_item_column_out_of_range z rows cols) by assumption.
  reflexivity.
Qed.

Lemma mesh_outer_ok (T : list R) (rows cols : nat) (Xs : list R) :
  forall (i0 : nat) (z : matrix),
    has_shape z rows cols -> (length T <= rows)%nat ->
    (i0 + length Xs <= cols)%nat ->
    exists z',
      mesh_outer g params Xs i0 T z = OkIx z' /\ has_shape z' rows cols
      /\ (forall k j x t,
            nth_error Xs k = Some x -> nth_error T j = Some t ->
            entry z' j (i0 + k) = Some (h x t))
      /\ (forall j' i', (i' < i0)%nat -> entry z' j' i' = entry z j' i').
Proof.
  induction Xs as [ | xi rest IH]; intros i0 z Hshape HT Hi.
  - exists z. split; [reflexivity | split; [exact Hshape | split]].
    + intros k j x t Hk. destruct k; discriminate.
    + reflexivity.
  - cbn [length] in Hi. cbn [mesh_outer].
    destruct (mesh_inner_ok xi i0 rows cols T 0 z Hshape)
      as [z1 [Hrun1 [Hshape1 [Hcol Hkeep]]]]; [lia | lia | ].
    rewrite Hrun1. cbn [bind_ix].
    destruct (IH (S i0) z1 Hshape1 HT) as [z' [Hrun [Hshape' [Hnew Hold]]]];
      [lia | ].
    exists z'. split; [exact Hrun | split; [exact Hshape' | split]].
    + intros k j x t Hk Hj. destruct k as [ | k'].
      * injection Hk as <-. rewrite Nat.add_0_r.
        rewrite Hold by lia. apply (Hcol j t Hj).
      * rewrite <- Nat.add_succ_comm. apply (Hnew k' j x t Hk Hj).
    + intros j' i' Hlt. rewrite Hold by lia. apply Hkeep. left. lia.
Qed.

Lemma mesh_outer_column_out_of_range (tj : R) (Trest : list R)
  (rows cols : nat) (Xs : list R) :
  forall (i0 : nat) (z : matrix),
    has_shape z rows cols -> (length (tj :: Trest) <= rows)%nat ->
    (i0 <= cols)%nat -> (cols < i0 + length Xs)%nat ->
    mesh_outer g params Xs i0 (tj :: Trest) z = RaiseIx IndexError.
Proof.
  induction Xs as [ | xi rest IH]; intros i0 z Hshape HT Hlo Hhi.
  - cbn [length] in Hhi. lia.
  - cbn [length] in Hhi, HT. cbn [mesh_outer].
    destruct (Nat.eq_dec i0 cols) as [-> | Hne].
    + rewrite (mesh_inner_column_out_of_range xi cols rows cols)
        by (assumption || lia).
      reflexivity.
    + destruct (mesh_inner_ok xi i0 rows cols (tj :: Trest) 0 z Hshape)
        as [z1 [Hrun1 [Hshape1 _]]]; [lia | cbn [length]; lia | ].
      rewrite Hrun1. cbn [bind_ix].
      apply IH; try assumption; cbn [length]; lia.
Qed.

Lemma mesh_wrapper_unfold (X T : list R) :
  mesh_wrapper X T g params =
  mesh_outer g params X 0 T (np_zeros (length X) (length T)).
Proof. unfold mesh_wrapper. destruct params; reflexivity. Qed.

(** X23: On two axes of the same length, [mesh_wrapper] returns the table of the
    function: a square array z with z[j][i] = f(X[i], T[j]) for every index
    i of X and j of T. *)
Theorem mesh_wrapper_square (X T : list R) :
  length X = length T ->
  exists z,
    mesh_wrapper X T g params = OkIx z
    /\ has_shape z (length X) (length T)
    /\ forall i j x t,
         nth_error X i = Some x -> nth_error T j = Some t ->
         entry z j i = Some (h x t).
Proof.
  intros Hlen. rewrite mesh_wrapper_unfold.
  destruct (mesh_outer_ok T (length X) (length T) X 0
              (np_zeros (length X) (length T)))
    as [z [Hrun [Hshape [Hval _]]]];
    [apply has_shape_zeros | lia | lia | ].
  exists z. split; [exact Hrun | split; [exact Hshape | ]].
  intros i j x t Hi Hj. apply (Hval i j x t Hi Hj).
Qed.

(** X24: On two non-empty axes of different lengths, [mesh_wrapper] raises
    IndexError: the array is allocated with len(X) rows and len(T) columns
    but written at z[j][i] with j running over T and i over X. *)
Theorem mesh_wrapper_not_square (X T : list R) :
  X <> [] -> T <> [] -> length X <> length T ->
  mesh_wrapper X T g params = RaiseIx IndexError.
Proof.
  intros HX HT Hne. rewrite mesh_wrapper_unfold.
  pose proof (has_shape_zeros (length X) (length T)) as Hshape.
  destruct X as [ | x0 Xrest]; [contradiction | ].
  destruct T as [ | t0 Trest]; [contradiction | ].
  destruct (Nat.lt_ge_cases (length (x0 :: Xrest)) (length (t0 :: Trest)))
    as [Hlt | Hge].
  - cbn [mesh_outer].
    rewrite (mesh_inner_row_out_of_range x0 0 (length (x0 :: Xrest))
               (length (t0 :: Trest)))
      by (try exact Hshape; cbn [length] in *; lia).
    reflexivity.
  - apply (mesh_outer_column_out_of_range t0 Trest (length (x0 :: Xrest))
             (length (t0 :: Trest)));
      try exact Hshape; cbn [length] in *; lia.
Qed.

End MeshWrapper.

Lemma mesh_wrapper_square_witness :
  exists z,
    mesh_wrapper [1; 2] [3; 4] (fun x t _ => Ok (x + 10 * t)) [] = OkIx z
    /\ has_shape z (length [1; 2]) (length [3; 4])
    /\ forall i j x t,
         nth_error [1; 2] i = Some x -> nth_error [3; 4] j = Some t ->
         entry z j i = Some (x + 10 * t).
Proof.
  apply (mesh_wrapper_square (fun x t _ => Ok (x + 10 * t)) []
           (fun x t => x + 10 * t)).
  - reflexivity.
  - reflexivity.
Defined.

Lemma mesh_wrapper_not_square_witness :
  mesh_wrapper [1; 2] [3; 4; 5] (fun x t _ => Ok (x + 10 * t)) [] =
  RaiseIx IndexError.
Proof.
  apply (mesh_wrapper_not_square (fun x t _ => Ok (x + 10 * t)) []
           (fun x t => x + 10 * t)).
  - reflexivity.
  - discriminate.
  - discriminate.
  - cbn [length]. lia.
Defined.

(** * The point-source notebook *)

(** X25: The pressure of the point source is even in the radius and vanishes at
    the source: p(-r, t) = p(r, t) for all arguments, and p(0, t) = 0 for
    all constants, the zero ones included. *)
Theorem p_even_and_zero_at_source (r t E_0 beta C_p c w_0 sigma : R) :
  p (- r) t E_0 beta C_p c w_0 sigma = p r t E_0 beta C_p c w_0 sigma
  /\ p 0 t E_0 beta C_p c w_0 sigma = Ok 0.
Proof.
  split.
  - unfold p.
    destruct (Rlt_dec (- r) 0) as [Hn | Hn];
      destruct (Rlt_dec r 0) as [Hr | Hr]; try lra.
    + rewrite Ropp_involutive. reflexivity.
    + reflexivity.
    + assert (r = 0) by lra. subst r. rewrite Ropp_0. reflexivity.
  - unfold p. destruct (Rlt_dec 0 0) as [H | _]; [lra | ].
    destruct (Req_dec_T 0 0) as [_ | N]; [reflexivity | contradiction].
Qed.

Lemma p_value (r t E_0 beta C_p c w_0 sigma : R) :
  0 < r -> 0 < C_p -> 0 < c -> 0 < w_0 ->
  p r t E_0 beta C_p c w_0 sigma =
  Ok (- beta * E_0 * (c * t - r)
      / (4 * PI * C_p * sqrt (2 * PI * c ^ 2) * (sigma ^ 2 + r / (w_0 * c)))
      * exp (- (c * t - r) ^ 2 / (2 * c ^ 2 * sigma ^ 2 + r * c / w_0)))
  /\ 0 < 4 * PI * C_p * sqrt (2 * PI * c ^ 2) * (sigma ^ 2 + r / (w_0 * c)).
Proof.
  intros Hr HC Hc Hw.
  pose proof PI_RGT_0 as Hpi.
  assert (Hc2 : 0 < c ^ 2) by (apply pow_lt; exact Hc).
  assert (Hrad : 0 < 2 * PI * c ^ 2)
    by (apply Rmult_lt_0_compat; [lra | exact Hc2]).
  assert (Hroot : 0 < sqrt (2 * PI * c ^ 2)) by (apply sqrt_lt_R0; exact Hrad).
  assert (Hwc : 0 < w_0 * c) by (apply Rmult_lt_0_compat; assumption).
  assert (Hq : 0 < r / (w_0 * c)) by (apply Rdiv_lt_0_compat; assumption).
  assert (Hs2 : 0 <= sigma ^ 2) by apply pow2_ge_0.
  assert (Hden : 0 < 4 * PI * C_p * sqrt (2 * PI * c ^ 2)
                     * (sigma ^ 2 + r / (w_0 * c))).
  { apply Rmult_lt_0_compat; [ | lra].
    apply Rmult_lt_0_compat; [ | exact Hroot].
    apply Rmult_lt_0_compat; lra. }
  assert (Hrc : 0 < r * c / w_0).
  { apply Rdiv_lt_0_compat; [apply Rmult_lt_0_compat | ]; assumption. }
  assert (Hden2 : 0 < 2 * c ^ 2 * sigma ^ 2 + r * c / w_0).
  { assert (0 <= 2 * c ^ 2 * sigma ^ 2)
      by (apply Rmult_le_pos; [lra | exact Hs2]).
    lra. }
  split; [ | exact Hden].
  unfold p. destruct (Rlt_dec r 0) as [H | _]; [lra | ].
  destruct (Req_dec_T r 0) as [H | _]; [lra | ].
  rewrite pow_half_ok by lra. cbn [bind].
  rewrite (div_ok r (w_0 * c)) by lra. cbn [bind].
  rewrite (div_ok _ (4 * PI * C_p * sqrt (2 * PI * c ^ 2)
                     * (sigma ^ 2 + r / (w_0 * c)))) by lra.
  cbn [bind].
  rewrite (div_ok (r * c) w_0) by lra. cbn [bind].
  rewrite div_ok by lra. reflexivity.
Qed.

(** X26: The sign of the pressure follows the wavefront: for r > 0 and positive
    E_0, beta, C_p, c, w_0 the pressure is a real number, zero exactly on
    the front c t = r, negative behind it (r < c t) and positive ahead of it
    (c t < r). *)
Theorem p_sign_follows_wavefront (r t E_0 beta C_p c w_0 sigma : R) :
  0 < r -> 0 < E_0 -> 0 < beta -> 0 < C_p -> 0 < c -> 0 < w_0 ->
  exists v,
    p r t E_0 beta C_p c w_0 sigma = Ok v
    /\ (c * t = r -> v = 0)
    /\ (r < c * t -> v < 0)
    /\ (c * t < r -> 0 < v).
Proof.
  intros Hr HE Hb HC Hc Hw.
  destruct (p_value r t E_0 beta C_p c w_0 sigma Hr HC Hc Hw) as [Hp Hden].
  eexists. split; [exact Hp | ].
  set (D := 4 * PI * C_p * sqrt (2 * PI * c ^ 2)
            * (sigma ^ 2 + r / (w_0 * c))) in *.
  set (E := exp (- (c * t - r) ^ 2 / (2 * c ^ 2 * sigma ^ 2 + r * c / w_0))).
  assert (HE0 : 0 < E) by apply exp_pos.
  assert (HbE : 0 < beta * E_0) by (apply Rmult_lt_0_compat; assumption).
  assert (HinvD : 0 < / D) by (apply Rinv_0_lt_compat; exact Hden).
  assert (Hform : - beta * E_0 * (c * t - r) / D * E
                  = (r - c * t) * ((beta * E_0) * (/ D * E)))
    by (unfold Rdiv; ring).
  rewrite Hform.
  assert (Hpos : 0 < beta * E_0 * (/ D * E)).
  { apply Rmult_lt_0_compat; [exact HbE | ].
    apply Rmult_lt_0_compat; assumption. }
  repeat split; intros Hcase; nra.
Qed.

Lemma p_sign_follows_wavefront_witness :
  exists v,
    p 2 1 1 1 1 3 1 0 = Ok v
    /\ (3 * 1 = 2 -> v = 0) /\ (2 < 3 * 1 -> v < 0) /\ (3 * 1 < 2 -> 0 < v).
Proof. apply (p_sign_follows_wavefront 2 1 1 1 1 3 1 0); lra. Defined.

(** The signal-to-noise ratio is even in the radius and 0 at r = 0, for
    all constants. *)
Lemma signal_noise_even_and_zero (const_k r beta c E_0 C_p rho T sigma
  w_0 : R) :
  signal_noise const_k (- r) beta c E_0 C_p rho T sigma w_0 =
  signal_noise const_k r beta c E_0 C_p rho T sigma w_0
  /\ signal_noise const_k 0 beta c E_0 C_p rho T sigma w_0 = Ok 0.
Proof.
  split.
  - unfold signal_noise.
    destruct (Req_dec_T (- r) 0) as [Hz | Hz];
      destruct (Req_dec_T r 0) as [Hr | Hr]; try lra; try reflexivity.
    destruct (Rlt_dec (- r) 0) as [Hn | Hn];
      destruct (Rlt_dec r 0) as [Hl | Hl]; try lra.
    + rewrite Ropp_involutive. reflexivity.
    + reflexivity.
  - unfold signal_noise.
    destruct (Req_dec_T 0 0) as [_ | N]; [reflexivity | contradiction].
Qed.

Lemma signal_noise_value (const_k r beta c E_0 C_p rho T sigma w_0 : R) :
  0 < r -> 0 < c -> 0 < C_p -> 0 < rho -> 0 < const_k -> 0 < T -> 0 < w_0 ->
  signal_noise const_k r beta c E_0 C_p rho T sigma w_0 =
  Ok (beta ^ 2 * c * E_0 ^ 2
      / (16 * Rpower PI (3 / 2) * C_p ^ 2 * rho * const_k * T * r ^ 2
         * sqrt (sigma ^ 2 + r / (w_0 * c))))
  /\ 0 < 16 * Rpower PI (3 / 2) * C_p ^ 2 * rho * const_k * T
  /\ 0 < sqrt (sigma ^ 2 + r / (w_0 * c)).
Proof.
  intros Hr Hc HC Hrho Hk HT Hw.
  assert (Hwc : 0 < w_0 * c) by (apply Rmult_lt_0_compat; assumption).
  assert (Hq : 0 < r / (w_0 * c)) by (apply Rdiv_lt_0_compat; assumption).
  assert (Hs2 : 0 <= sigma ^ 2) by apply pow2_ge_0.
  assert (Hroot : 0 < sqrt (sigma ^ 2 + r / (w_0 * c)))
    by (apply sqrt_lt_R0; lra).
  assert (Hpow : 0 < Rpower PI (3 / 2)) by (unfold Rpower; apply exp_pos).
  assert (HC2 : 0 < C_p ^ 2) by (apply pow_lt; exact HC).
  assert (Hr2 : 0 < r ^ 2) by (apply pow_lt; exact Hr).
  assert (HK : 0 < 16 * Rpower PI (3 / 2) * C_p ^ 2 * rho * const_k * T).
  { apply Rmult_lt_0_compat; [ | exact HT].
    apply Rmult_lt_0_compat; [ | exact Hk].
    apply Rmult_lt_0_compat; [ | exact Hrho].
    apply Rmult_lt_0_compat; [ | exact HC2].
    apply Rmult_lt_0_compat; lra. }
  split; [ | split; assumption].
  unfold signal_noise. destruct (Req_dec_T r 0) as [H | _]; [lra | ].
  destruct (Rlt_dec r 0) as [H | _]; [lra | ].
  rewrite (div_ok r (w_0 * c)) by lra. cbn [bind].
  rewrite pow_half_ok by lra. cbn [bind].
  rewrite div_ok; [reflexivity | ].
  apply Rgt_not_eq. apply Rmult_lt_0_compat; [ | exact Hroot].
  apply Rmult_lt_0_compat; assumption.
Qed.

(** X27: The signal-to-noise ratio falls with the distance: for radii
    0 < r1 < r2 and positive constants (beta and E_0 non-zero) both ratios
    are positive real numbers and the one at r2 is strictly smaller. *)
Theorem signal_noise_decreasing (const_k r1 r2 beta c E_0 C_p rho T sigma
  w_0 : R) :
  0 < r1 < r2 -> beta <> 0 -> E_0 <> 0 ->
  0 < c -> 0 < C_p -> 0 < rho -> 0 < const_k -> 0 < T -> 0 < w_0 ->
  exists v1 v2,
    signal_noise const_k r1 beta c E_0 C_p rho T sigma w_0 = Ok v1
    /\ signal_noise const_k r2 beta c E_0 C_p rho T sigma w_0 = Ok v2
    /\ 0 < v2 < v1.
Proof.
  intros [Hr1 Hr12] Hb HE Hc HC Hrho Hk HT Hw.
  destruct (signal_noise_value const_k r1 beta c E_0 C_p rho T sigma w_0)
    as [Hv1 [HK Hs1]]; try assumption.
  destruct (signal_noise_value const_k r2 beta c E_0 C_p rho T sigma w_0)
    as [Hv2 [_ Hs2]]; try assumption; [lra | ].
  eexists. eexists. split; [exact Hv1 | split; [exact Hv2 | ]].
  set (K := 16 * Rpower PI (3 / 2) * C_p ^ 2 * rho * const_k * T) in *.
  set (s1 := sqrt (sigma ^ 2 + r1 / (w_0 * c))) in *.
  set (s2 := sqrt (sigma ^ 2 + r2 / (w_0 * c))) in *.
  assert (HN : 0 < beta ^ 2 * c * E_0 ^ 2).
  { assert (0 < beta ^ 2) by (apply sq_pos; exact Hb).
    assert (0 < E_0 ^ 2) by (apply sq_pos; exact HE).
    apply Rmult_lt_0_compat; [apply Rmult_lt_0_compat | ]; assumption. }
  assert (Hs12 : s1 < s2).
  { unfold s1, s2. apply sqrt_lt_1.
    - assert (0 < r1 / (w_0 * c))
        by (apply Rdiv_lt_0_compat; [lra | apply Rmult_lt_0_compat; lra]).
      pose proof (pow2_ge_0 sigma). lra.
    - assert (0 < r2 / (w_0 * c))
        by (apply Rdiv_lt_0_compat; [lra | apply Rmult_lt_0_compat; lra]).
      pose proof (pow2_ge_0 sigma). lra.
    - apply Rplus_lt_compat_l. unfold Rdiv. apply Rmult_lt_compat_r; [ | lra].
      apply Rinv_0_lt_compat. apply Rmult_lt_0_compat; lra. }
  assert (Hsq : 0 < r1 ^ 2 < r2 ^ 2) by (simpl; nra).
  assert (HD1 : 0 < K * r1 ^ 2 * s1).
  { apply Rmult_lt_0_compat; [apply Rmult_lt_0_compat | ]; lra. }
  assert (HD12 : K * r1 ^ 2 * s1 < K * r2 ^ 2 * s2).
  { assert (r1 ^ 2 * s1 < r2 ^ 2 * s2) by nra.
    rewrite !Rmult_assoc. apply Rmult_lt_compat_l; assumption. }
  split.
  - apply Rdiv_lt_0_compat; lra.
  - unfold Rdiv. apply Rmult_lt_compat_l; [exact HN | ].
    apply Rinv_lt_contravar; [ | exact HD12].
    apply Rmult_lt_0_compat; lra.
Qed.

Lemma signal_noise_decreasing_witness :
  exists v1 v2,
    signal_noise 1 1 1 1 1 1 1 1 0 1 = Ok v1
    /\ signal_noise 1 2 1 1 1 1 1 1 0 1 = Ok v2
    /\ 0 < v2 < v1.
Proof.
  apply (signal_noise_decreasing 1 1 2 1 1 1 1 1 1 0 1); lra.
Defined.

(** * The closed-form notebook *)

Lemma closed_form_value (r t w_0 c : R) :
  0 < t -> 0 < w_0 -> 0 < c ->
  Checkpoint.F r t w_0 c =
  Ok (sqrt (PI * w_0 / (c ^ 2 * t))
      * (exp (- r ^ 2 * w_0 / (c ^ 2 * t) - t * w_0
              + (r + c * t) ^ 2 * w_0 / (2 * c ^ 2 * t))
         - exp (- r ^ 2 * w_0 / (c ^ 2 * t) - t * w_0
                + (r - c * t) ^ 2 * w_0 / (2 * c ^ 2 * t))))
  /\ 0 < sqrt (PI * w_0 / (c ^ 2 * t)).
Proof.
  intros Ht Hw Hc.
  assert (Hc2 : 0 < c ^ 2) by (apply pow_lt; exact Hc).
  assert (Hd : 0 < c ^ 2 * t) by (apply Rmult_lt_0_compat; assumption).
  assert (Hq : 0 < PI * w_0 / (c ^ 2 * t)).
  { apply Rdiv_lt_0_compat; [ | exact Hd].
    apply Rmult_lt_0_compat; [exact PI_RGT_0 | exact Hw]. }
  split; [ | apply sqrt_lt_R0; exact Hq].
  unfold Checkpoint.F.
  rewrite !(div_ok _ (c ^ 2 * t)) by lra. cbn [bind].
  rewrite pow_half_ok by lra. cbn [bind].
  rewrite !(div_ok _ (2 * c ^ 2 * t)) by lra. cbn [bind].
  reflexivity.
Qed.

(** X28: For t > 0, w_0 > 0 and c > 0 the closed form is odd in the radius, zero
    at r = 0 and positive for r > 0: F(-r, t) = -F(r, t). *)
Theorem closed_form_odd_and_positive (r t w_0 c : R) :
  0 < t -> 0 < w_0 -> 0 < c ->
  exists v,
    Checkpoint.F r t w_0 c = Ok v
    /\ Checkpoint.F (- r) t w_0 c = Ok (- v)
    /\ (r = 0 -> v = 0)
    /\ (0 < r -> 0 < v).
Proof.
  intros Ht Hw Hc.
  destruct (closed_form_value r t w_0 c Ht Hw Hc) as [Hv Hroot].
  destruct (closed_form_value (- r) t w_0 c Ht Hw Hc) as [Hv' _].
  eexists. split; [exact Hv | split; [ | split]].
  - rewrite Hv'. f_equal.
    replace (- (- r) ^ 2 * w_0 / (c ^ 2 * t)) with (- r ^ 2 * w_0 / (c ^ 2 * t))
      by (f_equal; ring).
    replace ((- r + c * t) ^ 2) with ((r - c * t) ^ 2) by ring.
    replace ((- r - c * t) ^ 2) with ((r + c * t) ^ 2) by ring.
    ring.
  - intros ->.
    replace ((0 + c * t) ^ 2) with ((0 - c * t) ^ 2) by ring. ring.
  - intros Hr. apply Rmult_lt_0_compat; [exact Hroot | ].
    assert (Hc2 : 0 < c ^ 2) by (apply pow_lt; exact Hc).
    assert (Hd : 0 < 2 * c ^ 2 * t)
      by (apply Rmult_lt_0_compat; [lra | exact Ht]).
    assert (Hlt : (r - c * t) ^ 2 * w_0 / (2 * c ^ 2 * t)
                  < (r + c * t) ^ 2 * w_0 / (2 * c ^ 2 * t)).
    { unfold Rdiv. apply Rmult_lt_compat_r;
        [apply Rinv_0_lt_compat; exact Hd | ].
      apply Rmult_lt_compat_r; [exact Hw | ].
      assert (0 < r * (c * t))
        by (apply Rmult_lt_0_compat; [ | apply Rmult_lt_0_compat]; lra).
      simpl. nra. }
    assert (exp (- r ^ 2 * w_0 / (c ^ 2 * t) - t * w_0
                 + (r - c * t) ^ 2 * w_0 / (2 * c ^ 2 * t))
            < exp (- r ^ 2 * w_0 / (c ^ 2 * t) - t * w_0
                   + (r + c * t) ^ 2 * w_0 / (2 * c ^ 2 * t)))
      by (apply exp_increasing; lra).
    lra.
Qed.

Lemma closed_form_odd_and_positive_witness :
  exists v,
    Checkpoint.F 2 1 1 1 = Ok v
    /\ Checkpoint.F (- 2) 1 1 1 = Ok (- v)
    /\ (2 = 0 -> v = 0)
    /\ (0 < 2 -> 0 < v).
Proof. apply (closed_form_odd_and_positive 2 1 1 1); lra. Defined.

(** X29: The closed form has no causality guard (its test of t < 0 is commented
    out): for w_0 > 0 and c <> 0, the call at t = 0 divides by zero and the
    call at t < 0 takes the root of a negative number. *)
Theorem closed_form_undefined_for_nonpositive_time (r t w_0 c : R) :
  0 < w_0 -> c <> 0 ->
  (t = 0 -> Checkpoint.F r t w_0 c = Raise DivisionByZero)
  /\ (t < 0 -> Checkpoint.F r t w_0 c = Raise NotReal).
Proof.
  intros Hw Hc. split.
  - intros ->. unfold Checkpoint.F. rewrite div_by_zero by ring. reflexivity.
  - intros Ht. unfold Checkpoint.F.
    assert (Hc2 : 0 < c ^ 2) by (apply sq_pos; exact Hc).
    assert (Hd : c ^ 2 * t < 0) by nra.
    rewrite (div_ok (PI * w_0)) by lra. cbn [bind].
    unfold pow_half.
    destruct (Rle_dec 0 (PI * w_0 / (c ^ 2 * t))) as [Hge | _];
      [ | reflexivity].
    exfalso.
    assert (Hnum : 0 < PI * w_0)
      by (apply Rmult_lt_0_compat; [exact PI_RGT_0 | exact Hw]).
    assert (Hinv : / (c ^ 2 * t) < 0) by (apply Rinv_lt_0_compat; exact Hd).
    unfold Rdiv in Hge. nra.
Qed.

Lemma closed_form_undefined_for_nonpositive_time_witness :
  Checkpoint.F 1 0 1 1 = Raise DivisionByZero
  /\ Checkpoint.F 1 (- 1) 1 1 = Raise NotReal.
Proof.
  destruct (closed_form_undefined_for_nonpositive_time 1 0 1 1)
    as [Hz _]; try lra.
  destruct (closed_form_undefined_for_nonpositive_time 1 (- 1) 1 1)
    as [_ Hn]; try lra.
  split; [apply Hz; reflexivity | apply Hn; lra].
Defined.

(** The approximation [phi] changes the integrand only in the oscillatory
    regime: for c > 0 and every k that is not strictly between 0 and
    2 w_0/c, and for every t < 0, phi and f return the same outcome. *)
Lemma phi_agrees_outside_oscillatory_regime (k r t w_0 c : R) :
  0 < c -> k <= 0 \/ 2 * w_0 / c <= k \/ t < 0 ->
  Checkpoint.phi k r t w_0 c = f k r t w_0 c.
Proof.
  intros Hc Hout. unfold Checkpoint.phi, f.
  destruct (Rlt_dec t 0) as [_ | Ht]; [reflexivity | ].
  destruct (Rle_dec k 0) as [_ | Hk]; [reflexivity | ].
  rewrite (div_ok (2 * w_0) c) by lra. cbn [bind].
  destruct (Rlt_dec k (2 * w_0 / c)) as [Hlt | _]; [ | reflexivity].
  exfalso. destruct Hout as [H | [H | H]]; lra.
Qed.
